(** * The gold bolt helper of racman (mods/NPEA00385/gb_sp_as_helper)

    [gold_bolt.c] is one hook, [_start], that the game runs in place of the
    update function of a gold bolt moby.  It keeps a counter of collected
    bolts and one flag per bolt, and then hands over to the game's own update
    function.  The counter, the flags, the mobys and their pVars all live in
    the one memory of the game, at addresses the hook takes as they come:
    this file embeds the hook over that memory and proves what the
    specification says about it.  The two locals of the hook, [self] and
    [vars], and its code are not in that memory. *)

From Stdlib Require Import ZArith Lia List String.
From stdpp Require Import base option gmap.

Open Scope Z_scope.

(** ** C integers

    [n_gold_bolts_collected] and [number] are [int]s of 32 bits; an addition
    that leaves the range comes back into it from the other end. *)

Definition int_min : Z := - 2 ^ 31.
Definition int_max : Z := 2 ^ 31 - 1.

Definition wrap_int (z : Z) : Z := (z + 2 ^ 31) mod 2 ^ 32 - 2 ^ 31.

Definition int_range (z : Z) : Prop := int_min <= z <= int_max.

(** ** The memory of the game

    The memory is the bytes at the addresses that are mapped.  A load or a
    store at an address that is not mapped is a fault. *)

Abbreviation Host := (gmap Z Z).

Definition ptr : Type := Z.

(** The order of the bytes of a word; the PlayStation 3 is [BigEndian]. *)
Inductive ByteOrder : Type := BigEndian | LittleEndian.

(** ** The layout of [struct Moby] and [struct GoldBoltVars]

    The fields of [struct Moby] in the order of the declaration, each with
    its size.  [vec4] and [color] are declared in npea00385.h; the offsets
    written next to the fields (0x30, 0x34, 0x38, 0x3c, 0x40, 0x50) give a
    [vec4] 16 bytes, a [color] 4 and a pointer 4.  With these sizes every
    field is aligned where the one before ends. *)

Definition Moby_fields : list (string * Z) :=
  [ ("coll_pos", 16); ("pos", 16); ("state", 1); ("texture_mode", 1);
    ("opacity", 2); ("model", 4); ("parent", 4); ("scale", 4);
    ("unk_30", 1); ("visible", 1); ("render_distance", 2); ("unk_34", 4);
    ("color", 4); ("shading", 4); ("rot", 16); ("prev_anim_frame", 1);
    ("curr_anim_frame", 1); ("updateID", 1); ("asdf", 0x25); ("pvars", 4);
    ("asdf2", 0x2A); ("type", 2); ("asdf3", 0x58) ]%string.

Fixpoint offset_in (fields : list (string * Z)) (name : string) : Z :=
  match fields with
  | [] => 0
  | (f, size) :: rest =>
      if String.eqb f name then 0 else size + offset_in rest name
  end.

Definition Moby_state : Z := Eval cbv in offset_in Moby_fields "state".
Definition Moby_texture_mode : Z :=
  Eval cbv in offset_in Moby_fields "texture_mode".
Definition Moby_pvars : Z := Eval cbv in offset_in Moby_fields "pvars".
Definition sizeof_Moby : Z := Eval cbv in offset_in Moby_fields "".

(** [number] is the only field of [struct GoldBoltVars]. *)
Definition GoldBoltVars_number : Z := 0.
Definition sizeof_GoldBoltVars : Z := 4.

(** ** The addresses in the macros *)

(** [n_gold_bolts_collected] is the [int] at this address. *)
Definition counter_addr : Z := 0x00aff000.

(** [collected_bolt] is this address as a [char*]: [collected_bolt[i]] is the
    byte at [table_base + i], for whatever [int] the index is. *)
Definition table_base : Z := 0x00aff004.

Definition table_addr (i : Z) : Z := table_base + i.

(** The address cast to a function by [gold_bolt_update_func]. *)
Definition gold_bolt_update_func : Z := 0x1d9d48.

(** A call into the code of the game: the address called, the argument and
    the memory as it is when the call is made. *)
Inductive Event : Type :=
| HostCall (target : Z) (arg : ptr) (mem : Host).

(** ** Running C statements

    A statement starts from a memory and either faults or ends with a value,
    a memory and the calls it made, oldest first. *)

Definition M (A : Type) : Type := Host -> option (A * Host * list Event).

Definition ret {A : Type} (a : A) : M A := fun h => Some (a, h, []).

Definition bind {A B : Type} (m : M A) (k : A -> M B) : M B :=
  fun h =>
    match m h with
    | None => None
    | Some (a, h1, t1) =>
        match k a h1 with
        | None => None
        | Some (b, h2, t2) => Some (b, h2, t1 ++ t2)
        end
    end.

Definition load {A : Type} (f : Host -> option A) : M A :=
  fun h => match f h with
           | Some a => Some (a, h, [])
           | None => None
           end.

Definition store (f : Host -> option Host) : M unit :=
  fun h => match f h with
           | Some h' => Some (tt, h', [])
           | None => None
           end.

Declare Scope hook_scope.
Delimit Scope hook_scope with hook.
Notation "x <- m ;; k" := (bind m (fun x => k))
  (at level 100, m at next level, right associativity) : hook_scope.
Notation "m ;;; k" := (bind m (fun _ => k))
  (at level 100, k at level 200, right associativity) : hook_scope.

(** ** Bytes *)

Definition load_byte (h : Host) (a : Z) : option Z := h !! a.

Definition store_byte (h : Host) (a b : Z) : option Host :=
  match h !! a with
  | Some _ => Some (<[a := b mod 256]> h)
  | None => None
  end.

Section GoldBolt.

Variable order : ByteOrder.

(** The number of entries of the table behind [collected_bolt].  It is the
    game's; the hook does not know it. *)
Variable table_size : Z.

(** ** Words of four bytes *)

(** The word whose bytes are [b0], [b1], [b2], [b3], by rising address. *)
Definition word_of_bytes (b0 b1 b2 b3 : Z) : Z :=
  match order with
  | BigEndian => ((b0 * 256 + b1) * 256 + b2) * 256 + b3
  | LittleEndian => ((b3 * 256 + b2) * 256 + b1) * 256 + b0
  end.

(** The byte of the word [w] that goes to its [k]-th address. *)
Definition byte_of_word (w k : Z) : Z :=
  match order with
  | BigEndian => (w / 256 ^ (3 - k)) mod 256
  | LittleEndian => (w / 256 ^ k) mod 256
  end.

Definition load_word (h : Host) (a : Z) : option Z :=
  match h !! a, h !! (a + 1), h !! (a + 2), h !! (a + 3) with
  | Some b0, Some b1, Some b2, Some b3 => Some (word_of_bytes b0 b1 b2 b3)
  | _, _, _, _ => None
  end.

Definition write_word (h : Host) (a w : Z) : Host :=
  <[a + 3 := byte_of_word w 3]>
    (<[a + 2 := byte_of_word w 2]>
       (<[a + 1 := byte_of_word w 1]>
          (<[a := byte_of_word w 0]> h))).

Definition store_word (h : Host) (a w : Z) : option Host :=
  match h !! a, h !! (a + 1), h !! (a + 2), h !! (a + 3) with
  | Some _, Some _, Some _, Some _ => Some (write_word h a w)
  | _, _, _, _ => None
  end.

(** An [int] is a word read as a signed number. *)
Definition load_int (h : Host) (a : Z) : option Z :=
  match load_word h a with
  | Some w => Some (wrap_int w)
  | None => None
  end.

Definition store_int (h : Host) (a v : Z) : option Host :=
  store_word h a (v mod 2 ^ 32).

(** ** The accesses of the hook *)

(** [self->state], a [char], and [self->pvars], a pointer. *)
Definition read_state (self : ptr) : M Z :=
  load (fun h => load_byte h (self + Moby_state)).

Definition read_pvars (self : ptr) : M ptr :=
  load (fun h => load_word h (self + Moby_pvars)).

(** [vars->number]. *)
Definition read_number (vars : ptr) : M Z :=
  load (fun h => load_int h (vars + GoldBoltVars_number)).

(** [n_gold_bolts_collected] read and assigned. *)
Definition get_n_gold_bolts_collected : M Z :=
  load (fun h => load_int h counter_addr).

Definition set_n_gold_bolts_collected (z : Z) : M unit :=
  store (fun h => store_int h counter_addr z).

(** [collected_bolt[i]] read and assigned. *)
Definition get_collected_bolt (i : Z) : M Z :=
  load (fun h => load_byte h (table_addr i)).

Definition set_collected_bolt (i : Z) (c : Z) : M unit :=
  store (fun h => store_byte h (table_addr i) c).

(** A call of the code of the game at [target].  What that code does to the
    memory is the game's, not the mod's: it is [host_code]. *)
Definition call (host_code : Z -> ptr -> Host -> Host)
    (target : Z) (arg : ptr) : M unit :=
  fun h => Some (tt, host_code target arg h, [HostCall target arg h]).

(** ** The hook *)

(** The body of [_start] up to the call of the game's update function. *)
Definition hook_logic (self : ptr) : M unit :=
  (vars <- read_pvars self ;;
   st <- read_state self ;;
   if st =? 0 then
     i <- read_number vars ;;
     set_collected_bolt i 0
   else
     st' <- read_state self ;;
     if st' =? 2 then
       i <- read_number vars ;;
       c <- get_collected_bolt i ;;
       if c =? 0 then
         n <- get_n_gold_bolts_collected ;;
         set_n_gold_bolts_collected (wrap_int (n + 1)) ;;;
         i' <- read_number vars ;;
         set_collected_bolt i' 1
       else ret tt
     else ret tt)%hook.

Definition _start (host_code : Z -> ptr -> Host -> Host) (self : ptr) :
    M unit :=
  (hook_logic self ;;;
   call host_code gold_bolt_update_func self)%hook.

(** ** The counter and the flags of a memory *)

Definition n_gold_bolts_collected (h : Host) : option Z :=
  load_int h counter_addr.

Definition collected_bolt (h : Host) (i : Z) : option Z :=
  load_byte h (table_addr i).

(** [a] is none of the [n] bytes from [b] on. *)
Definition outside (a b n : Z) : Prop := a < b \/ b + n <= a.

(** The [n] bytes from [a] on and the [m] bytes from [b] on do not meet. *)
Definition apart (a n b m : Z) : Prop := a + n <= b \/ b + m <= a.

(** The moby at [self] is a gold bolt in state [st], with its pVars at
    [vars] and the number [i] in them, and the bolt is in its place: the
    counter and the flag of the bolt are mapped, the flag is no byte of the
    counter, and the pVars are not where the counter is. *)
Definition gold_bolt_at (h : Host) (self : ptr) (st : Z) (vars : ptr)
    (i : Z) : Prop :=
  load_byte h (self + Moby_state) = Some st /\
  load_word h (self + Moby_pvars) = Some vars /\
  load_int h (vars + GoldBoltVars_number) = Some i /\
  is_Some (n_gold_bolts_collected h) /\
  is_Some (collected_bolt h i) /\
  outside (table_addr i) counter_addr 4 /\
  apart vars sizeof_GoldBoltVars counter_addr 4.

(** The moby itself is out of the way of the counter and of the flag. *)
Definition moby_clear (self : ptr) (i : Z) : Prop :=
  outside (table_addr i) self sizeof_Moby /\
  apart self sizeof_Moby counter_addr 4.

(** The hook can run on the moby at [self]: every address it goes through
    is mapped.  These are the two fields of the moby and, for a moby in
    state 0 or 2, the number in its pVars and the flag with that number;
    when the flag of a moby in state 2 is 0, also the counter and the flag
    with the number that the pVars hold once the counter is written. *)
Definition invocable (h : Host) (self : ptr) : Prop :=
  exists st vars,
    load_byte h (self + Moby_state) = Some st /\
    load_word h (self + Moby_pvars) = Some vars /\
    (st = 0 ->
     exists i, load_int h (vars + GoldBoltVars_number) = Some i /\
       is_Some (load_byte h (table_addr i))) /\
    (st = 2 ->
     exists i c, load_int h (vars + GoldBoltVars_number) = Some i /\
       load_byte h (table_addr i) = Some c /\
       (c = 0 ->
        exists n h1 i',
          load_int h counter_addr = Some n /\
          store_int h counter_addr (wrap_int (n + 1)) = Some h1 /\
          load_int h1 (vars + GoldBoltVars_number) = Some i' /\
          is_Some (load_byte h1 (table_addr i')))).

(** ** Sequences of invocations

    Between two invocations the game does what it likes with its mobys (this
    is how a bolt goes from one state to another), but the counter and the
    entries of the table are left to the hook. *)

Definition in_table (i : Z) : Prop := 0 <= i < table_size.

Definition same_globals (h1 h2 : Host) : Prop :=
  n_gold_bolts_collected h1 = n_gold_bolts_collected h2 /\
  forall j, in_table j -> collected_bolt h1 j = collected_bolt h2 j.

(** [run obs h h'] : from [h] the hook's own logic is invoked once for each
    element of [obs], oldest first, each element being the state and the
    number of the bolt the invocation is for, a bolt in its place with its
    number in the table, and [h'] is the memory at the end. *)
Inductive run : list (Z * Z) -> Host -> Host -> Prop :=
| run_nil h :
    run [] h h
| run_cons self st vars i h h1 h2 h3 obs :
    same_globals h h1 ->
    gold_bolt_at h1 self st vars i ->
    in_table i ->
    hook_logic self h1 = Some (tt, h2, []) ->
    run obs h2 h3 ->
    run ((st, i) :: obs) h h3.

(** The most recent invocation with state 2 for bolt [i] has no invocation
    with state 0 for [i] after it. *)
Definition collected_since_reset (i : Z) (obs : list (Z * Z)) : Prop :=
  exists l1 l2, obs = l1 ++ (2, i) :: l2 /\ ((2, i) ∉ l2) /\ ((0, i) ∉ l2).

(** The bolts that a sequence of invocations shows in state 2. *)
Fixpoint collected (obs : list (Z * Z)) : gset Z :=
  match obs with
  | [] => ∅
  | (st, i) :: rest =>
      if st =? 2 then {[ i ]} ∪ collected rest else collected rest
  end.

(** [starts host_code obs h h'] : [_start] is run once for each element of
    [obs], oldest first, each run on the memory the one before has left
    (the game's update function included), and [h'] is the memory at the
    end. *)
Inductive starts (host_code : Z -> ptr -> Host -> Host) :
  list (Z * Z) -> Host -> Host -> Prop :=
| starts_nil h :
    starts host_code [] h h
| starts_cons self st vars i h h1 h2 t obs :
    gold_bolt_at h self st vars i ->
    in_table i ->
    _start host_code self h = Some (tt, h1, t) ->
    starts host_code obs h1 h2 ->
    starts host_code ((st, i) :: obs) h h2.

(** A game whose code leaves the counter and the table to the hook. *)
Definition keeps_globals (host_code : Z -> ptr -> Host -> Host) : Prop :=
  forall target arg h, same_globals h (host_code target arg h).

(** ** A small level to run the hook on

    A counter, a table of 64 flags and two mobys, each with its pVars, all
    bytes 0 to begin with. *)

Definition sample_self : ptr := 0x00c00000.
Definition sample_vars : ptr := 0x00c00100.
Definition second_self : ptr := 0x00c00200.
Definition second_vars : ptr := 0x00c00300.

Definition bytes_from (a : Z) (n : nat) : list (Z * Z) :=
  map (fun k => (a + Z.of_nat k, 0)) (seq 0 n).

Definition blank : Host :=
  list_to_map (bytes_from counter_addr 68 ++ bytes_from sample_self 260
               ++ bytes_from second_self 260).

(** The moby at [self] made a bolt in state [st], with its pVars at [vars]
    and the number [i] in them. *)
Definition with_bolt (self vars : ptr) (st i : Z) (h : Host) : Host :=
  write_word
    (write_word (<[self + Moby_state := st]> h) (self + Moby_pvars) vars)
    vars (i mod 2 ^ 32).

(** The level with the first bolt in state [st], the number [i] in its
    pVars, [n] in the counter and the flags of [flags] at 1. *)
Definition sample_host (st i n : Z) (flags : list Z) : Host :=
  foldr (fun j h => <[table_addr j := 1]> h)
        (write_word (with_bolt sample_self sample_vars st i blank)
                    counter_addr (n mod 2 ^ 32))
        flags.

(** A level whose first moby, in state [st], has the address of the counter
    for its pVars pointer, with [n] in the counter. *)
Definition stray_host (st n : Z) : Host :=
  write_word
    (write_word (<[sample_self + Moby_state := st]> blank)
                (sample_self + Moby_pvars) counter_addr)
    counter_addr (n mod 2 ^ 32).

(** The game moves the first bolt to state [st]. *)
Definition move_sample_bolt (st : Z) (h : Host) : Host :=
  <[sample_self + Moby_state := st]> h.

(** A game whose update function leaves the memory alone. *)
Definition idle_host : Z -> ptr -> Host -> Host := fun _ _ h => h.

(** A game whose update function picks the first bolt up: called with it,
    it moves it to state 2. *)
Definition pickup_host : Z -> ptr -> Host -> Host :=
  fun _ arg h => if arg =? sample_self then move_sample_bolt 2 h else h.

(** ** C integers: facts *)

Lemma wrap_int_range z : int_range (wrap_int z).
Proof.
  unfold int_range, wrap_int, int_min, int_max.
  pose proof (Z.mod_pos_bound (z + 2 ^ 31) (2 ^ 32) ltac:(lia)). lia.
Qed.

Lemma wrap_int_small z : int_range z -> wrap_int z = z.
Proof.
  unfold int_range, wrap_int, int_min, int_max. intros Hz.
  rewrite Z.mod_small; lia.
Qed.

Lemma wrap_int_succ n : int_min <= n < int_max -> wrap_int (n + 1) = n + 1.
Proof.
  intros Hn. apply wrap_int_small. unfold int_range. lia.
Qed.

Lemma wrap_int_max : wrap_int (int_max + 1) = int_min.
Proof. reflexivity. Qed.

Lemma wrap_int_idem z : wrap_int (wrap_int z) = wrap_int z.
Proof. apply wrap_int_small, wrap_int_range. Qed.

Lemma wrap_int_mod z : wrap_int (z mod 2 ^ 32) = wrap_int z.
Proof.
  unfold wrap_int. by rewrite Zplus_mod_idemp_l.
Qed.

Lemma wrap_int_add_l a b : wrap_int (wrap_int a + b) = wrap_int (a + b).
Proof.
  unfold wrap_int.
  replace ((a + 2 ^ 31) mod 2 ^ 32 - 2 ^ 31 + b + 2 ^ 31)
    with ((a + 2 ^ 31) mod 2 ^ 32 + b) by lia.
  rewrite Zplus_mod_idemp_l. do 2 f_equal. lia.
Qed.

(** ** Loads and stores *)

Lemma word_of_bytes_of_word w :
  word_of_bytes (byte_of_word w 0) (byte_of_word w 1)
                (byte_of_word w 2) (byte_of_word w 3) = w mod 2 ^ 32.
Proof.
  unfold word_of_bytes, byte_of_word.
  destruct order; cbn [Z.sub Z.pos_sub Z.opp Z.add Z.pow Z.pow_pos
                         Pos.iter Z.mul Pos.mul Z.succ_double Z.pred_double
                         Z.double Pos.pred_double];
    change (2 ^ 32) with (256 * (256 * (256 * 256)));
    rewrite ?Z.div_1_r;
    Z.to_euclidean_division_equations; lia.
Qed.

Lemma lookup_write_word_other h a w c :
  outside c a 4 -> write_word h a w !! c = h !! c.
Proof.
  unfold outside, write_word. intros Hc.
  rewrite !lookup_insert_ne by lia. reflexivity.
Qed.

Lemma lookup_write_word h a w k :
  0 <= k < 4 -> write_word h a w !! (a + k) = Some (byte_of_word w k).
Proof.
  unfold write_word. intros Hk.
  assert (k = 0 \/ k = 1 \/ k = 2 \/ k = 3) as [-> | [-> | [-> | ->]]] by lia.
  - rewrite !lookup_insert_ne by lia. rewrite Z.add_0_r.
    apply lookup_insert_eq.
  - rewrite !lookup_insert_ne by lia. apply lookup_insert_eq.
  - rewrite !lookup_insert_ne by lia. apply lookup_insert_eq.
  - apply lookup_insert_eq.
Qed.

Lemma load_word_write_word h a w :
  load_word (write_word h a w) a = Some (w mod 2 ^ 32).
Proof.
  unfold load_word.
  rewrite <- (Z.add_0_r a) at 1.
  rewrite !lookup_write_word by lia.
  by rewrite word_of_bytes_of_word.
Qed.

Lemma load_word_write_word_other h a w b :
  apart b 4 a 4 -> load_word (write_word h a w) b = load_word h b.
Proof.
  unfold apart, load_word. intros Hb.
  rewrite !lookup_write_word_other by (unfold outside; lia). reflexivity.
Qed.

Lemma load_word_insert_other h c x b :
  outside c b 4 -> load_word (<[c := x]> h) b = load_word h b.
Proof.
  unfold outside, load_word. intros Hc.
  rewrite !lookup_insert_ne by lia. reflexivity.
Qed.

Lemma load_int_write_word h a w :
  load_int (write_word h a w) a = Some (wrap_int w).
Proof.
  unfold load_int. by rewrite load_word_write_word, wrap_int_mod.
Qed.

Lemma load_int_write_word_other h a w b :
  apart b 4 a 4 -> load_int (write_word h a w) b = load_int h b.
Proof.
  intros Hb. unfold load_int. by rewrite load_word_write_word_other.
Qed.

Lemma load_int_insert_other h c x b :
  outside c b 4 -> load_int (<[c := x]> h) b = load_int h b.
Proof.
  intros Hc. unfold load_int. by rewrite load_word_insert_other.
Qed.

Lemma load_word_mapped h a w :
  load_word h a = Some w ->
  is_Some (h !! a) /\ is_Some (h !! (a + 1)) /\
  is_Some (h !! (a + 2)) /\ is_Some (h !! (a + 3)).
Proof.
  unfold load_word. intros Hw.
  destruct (h !! a); [| done]. destruct (h !! (a + 1)); [| done].
  destruct (h !! (a + 2)); [| done]. destruct (h !! (a + 3)); [| done].
  eauto.
Qed.

Lemma load_int_mapped h a n :
  load_int h a = Some n -> exists w, load_word h a = Some w.
Proof.
  unfold load_int. intros Hn. destruct (load_word h a) as [w |]; [| done].
  by exists w.
Qed.

Lemma store_word_mapped h a w w' :
  load_word h a = Some w' -> store_word h a w = Some (write_word h a w).
Proof.
  intros Hw. apply load_word_mapped in Hw as ([? H0] & [? H1] & [? H2] & [? H3]).
  unfold store_word. by rewrite H0, H1, H2, H3.
Qed.

Lemma store_int_mapped h a v n :
  load_int h a = Some n ->
  store_int h a v = Some (write_word h a (v mod 2 ^ 32)).
Proof.
  intros Hn. apply load_int_mapped in Hn as [w Hw].
  unfold store_int. by apply store_word_mapped with w.
Qed.

Lemma store_word_inv h a w h' :
  store_word h a w = Some h' ->
  h' = write_word h a w /\ is_Some (load_word h a).
Proof.
  unfold store_word, load_word. intros Hs.
  destruct (h !! a); [| done]. destruct (h !! (a + 1)); [| done].
  destruct (h !! (a + 2)); [| done]. destruct (h !! (a + 3)); [| done].
  split; [congruence | eauto].
Qed.

Lemma store_byte_mapped h a b x :
  h !! a = Some x -> store_byte h a b = Some (<[a := b mod 256]> h).
Proof. intros Ha. unfold store_byte. by rewrite Ha. Qed.

Lemma store_byte_inv h a b h' :
  store_byte h a b = Some h' ->
  h' = <[a := b mod 256]> h /\ is_Some (h !! a).
Proof.
  unfold store_byte. intros Hs. destruct (h !! a) eqn:Ha; [| done].
  split; [congruence | eauto].
Qed.

(** ** Running the statements of the hook *)

Lemma bind_pure {A B : Type} (m : M A) (k : A -> M B) h a h1 :
  m h = Some (a, h1, []) -> bind m k h = k a h1.
Proof.
  intros Hm. unfold bind. rewrite Hm.
  destruct (k a h1) as [[[b h2] t2] |]; reflexivity.
Qed.

Lemma bind_fault {A B : Type} (m : M A) (k : A -> M B) h :
  m h = None -> bind m k h = None.
Proof. intros Hm. unfold bind. by rewrite Hm. Qed.

Lemma load_some {A : Type} (f : Host -> option A) h a :
  f h = Some a -> load f h = Some (a, h, []).
Proof. intros Hf. unfold load. by rewrite Hf. Qed.

Lemma load_none {A : Type} (f : Host -> option A) h :
  f h = None -> load f h = None.
Proof. intros Hf. unfold load. by rewrite Hf. Qed.

Lemma store_some (f : Host -> option Host) h h' :
  f h = Some h' -> store f h = Some (tt, h', []).
Proof. intros Hf. unfold store. by rewrite Hf. Qed.

Lemma store_none (f : Host -> option Host) h :
  f h = None -> store f h = None.
Proof. intros Hf. unfold store. by rewrite Hf. Qed.

Lemma bind_inv {A B : Type} (m : M A) (k : A -> M B) h r :
  bind m k h = Some r ->
  exists a h1 t1 b h2 t2,
    m h = Some (a, h1, t1) /\ k a h1 = Some (b, h2, t2) /\
    r = (b, h2, t1 ++ t2).
Proof.
  unfold bind. intros Hb.
  destruct (m h) as [[[a h1] t1] |] eqn:Hm; [| done].
  destruct (k a h1) as [[[b h2] t2] |] eqn:Hk; [| done].
  exists a, h1, t1, b, h2, t2. split; [done |]. split; [done | congruence].
Qed.

Lemma load_inv {A : Type} (f : Host -> option A) h a h1 t :
  load f h = Some (a, h1, t) -> f h = Some a /\ h1 = h /\ t = [].
Proof.
  unfold load. intros Hl. destruct (f h); [| done].
  split; [congruence |]. split; congruence.
Qed.

Lemma store_inv (f : Host -> option Host) h u h1 t :
  store f h = Some (u, h1, t) -> f h = Some h1 /\ t = [].
Proof.
  unfold store. intros Hl. destruct (f h); [| done].
  split; congruence.
Qed.

(** ** The four ways through the hook *)

Ltac hook_unfold :=
  unfold hook_logic, read_pvars, read_state, read_number,
    get_collected_bolt, set_collected_bolt, get_n_gold_bolts_collected,
    set_n_gold_bolts_collected.

(** One statement of the hook that reads. *)
Ltac hook_load := erewrite bind_pure by (apply load_some; eassumption).

Lemma table_addr_inj i j : table_addr i = table_addr j -> i = j.
Proof. unfold table_addr. lia. Qed.

Lemma in_table_outside_counter j :
  in_table j -> outside (table_addr j) counter_addr 4.
Proof.
  unfold in_table, outside, table_addr, table_base, counter_addr. lia.
Qed.

Lemma hook_logic_reset self h vars i :
  gold_bolt_at h self 0 vars i ->
  hook_logic self h = Some (tt, <[table_addr i := 0]> h, []).
Proof.
  intros (Hst & Hpv & Hnum & _ & [c Hc] & _). hook_unfold.
  do 2 hook_load. cbn [Z.eqb]. hook_load.
  apply store_some. by apply store_byte_mapped with c.
Qed.

Lemma hook_logic_collect self h vars i n :
  gold_bolt_at h self 2 vars i ->
  collected_bolt h i = Some 0 ->
  n_gold_bolts_collected h = Some n ->
  hook_logic self h =
    Some (tt,
          <[table_addr i := 1]>
            (write_word h counter_addr (wrap_int (n + 1) mod 2 ^ 32)),
          []).
Proof.
  intros (Hst & Hpv & Hnum & _ & _ & Hout & Hapart) Hc Hn. hook_unfold.
  do 2 hook_load. cbn [Z.eqb Pos.eqb]. hook_load. cbn [Z.eqb Pos.eqb].
  do 2 hook_load. cbn [Z.eqb]. hook_load.
  erewrite bind_pure
    by (apply store_some; apply store_int_mapped with n; exact Hn).
  set (h1 := write_word h counter_addr (wrap_int (n + 1) mod 2 ^ 32)).
  assert (Hnum1 : load_int h1 (vars + GoldBoltVars_number) = Some i).
  { unfold h1. rewrite load_int_write_word_other; [exact Hnum |].
    unfold apart, sizeof_GoldBoltVars, GoldBoltVars_number in *. lia. }
  hook_load. apply store_some.
  apply store_byte_mapped with 0. unfold h1.
  rewrite lookup_write_word_other by exact Hout. exact Hc.
Qed.

Lemma hook_logic_counted self h vars i c :
  gold_bolt_at h self 2 vars i ->
  collected_bolt h i = Some c -> c <> 0 ->
  hook_logic self h = Some (tt, h, []).
Proof.
  intros (Hst & Hpv & Hnum & _) Hc Hne. hook_unfold.
  do 2 hook_load. cbn [Z.eqb Pos.eqb]. hook_load. cbn [Z.eqb Pos.eqb].
  do 2 hook_load. destruct (Z.eqb_spec c 0); [done | reflexivity].
Qed.

Lemma hook_logic_other self h st vars :
  load_byte h (self + Moby_state) = Some st ->
  load_word h (self + Moby_pvars) = Some vars ->
  st <> 0 -> st <> 2 ->
  hook_logic self h = Some (tt, h, []).
Proof.
  intros Hst Hpv H0 H2. hook_unfold.
  do 2 hook_load. destruct (Z.eqb_spec st 0); [done |].
  hook_load. destruct (Z.eqb_spec st 2); [done | reflexivity].
Qed.

(** What one invocation for a bolt in its place does to the counter, to the
    flag of the bolt and to the rest of the memory. *)
Lemma hook_globals self h st vars i n c :
  gold_bolt_at h self st vars i ->
  n_gold_bolts_collected h = Some n ->
  collected_bolt h i = Some c ->
  exists h',
    hook_logic self h = Some (tt, h', []) /\
    n_gold_bolts_collected h' =
      Some (if (st =? 2) && (c =? 0) then wrap_int (n + 1) else n) /\
    collected_bolt h' i =
      Some (if st =? 0 then 0
            else if (st =? 2) && (c =? 0) then 1 else c) /\
    forall a, outside a counter_addr 4 -> a <> table_addr i ->
      h' !! a = h !! a.
Proof.
  intros Hb Hn Hc.
  assert (Hout : outside (table_addr i) counter_addr 4) by apply Hb.
  destruct (Z.eqb_spec st 0) as [-> | H0].
  { exists (<[table_addr i := 0]> h). split; [by apply hook_logic_reset with vars |].
    cbn [Z.eqb andb]. split; [| split].
    - unfold n_gold_bolts_collected. by rewrite load_int_insert_other.
    - apply lookup_insert_eq.
    - intros a _ Ha. by rewrite lookup_insert_ne. }
  destruct (Z.eqb_spec st 2) as [-> | H2]; cbn [andb].
  - destruct (Z.eqb_spec c 0) as [-> | Hc0].
    + exists (<[table_addr i := 1]>
                (write_word h counter_addr (wrap_int (n + 1) mod 2 ^ 32))).
      split; [by apply hook_logic_collect with vars |]. split; [| split].
      * unfold n_gold_bolts_collected.
        rewrite load_int_insert_other by exact Hout.
        by rewrite load_int_write_word, wrap_int_mod, wrap_int_idem.
      * apply lookup_insert_eq.
      * intros a Ha Hne. rewrite lookup_insert_ne by done.
        by apply lookup_write_word_other.
    + exists h. split; [by apply hook_logic_counted with vars i c |]. done.
  - exists h. destruct Hb as (Hst & Hpv & _).
    split; [by apply hook_logic_other with st vars |]. done.
Qed.

(** The same for the flags of the table. *)
Lemma hook_table self h st vars i n c :
  gold_bolt_at h self st vars i ->
  n_gold_bolts_collected h = Some n ->
  collected_bolt h i = Some c ->
  exists h',
    hook_logic self h = Some (tt, h', []) /\
    n_gold_bolts_collected h' =
      Some (if (st =? 2) && (c =? 0) then wrap_int (n + 1) else n) /\
    forall j, outside (table_addr j) counter_addr 4 ->
      collected_bolt h' j =
        if j =? i then
          Some (if st =? 0 then 0
                else if (st =? 2) && (c =? 0) then 1 else c)
        else collected_bolt h j.
Proof.
  intros Hb Hn Hc.
  destruct (hook_globals self h st vars i n c Hb Hn Hc)
    as (h' & Hrun & Hn' & Hi & Hframe).
  exists h'. split; [exact Hrun |]. split; [exact Hn' |].
  intros j Hj. destruct (Z.eqb_spec j i) as [-> | Hji]; [exact Hi |].
  apply Hframe; [exact Hj |]. intros Heq. by apply table_addr_inj in Heq.
Qed.

Lemma gold_bolt_counter h self st vars i :
  gold_bolt_at h self st vars i ->
  exists n c, n_gold_bolts_collected h = Some n /\
    collected_bolt h i = Some c.
Proof. intros (_ & _ & _ & [n Hn] & [c Hc] & _). by exists n, c. Qed.

Lemma start_after_logic host_code self h h1 :
  hook_logic self h = Some (tt, h1, []) ->
  _start host_code self h =
    Some (tt, host_code gold_bolt_update_func self h1,
          [HostCall gold_bolt_update_func self h1]).
Proof.
  intros Hrun. unfold _start. by erewrite bind_pure by eassumption.
Qed.

Lemma load_int_range h a n : load_int h a = Some n -> int_range n.
Proof.
  unfold load_int. intros Hn. destruct (load_word h a); [| done].
  injection Hn as <-. apply wrap_int_range.
Qed.

(** A bolt in its place can be run on. *)
Lemma gold_bolt_invocable h self st vars i :
  gold_bolt_at h self st vars i -> invocable h self.
Proof.
  intros (Hst & Hpv & Hnum & [n Hn] & [c Hc] & Hout & Hapart).
  exists st, vars. split; [exact Hst |]. split; [exact Hpv |]. split.
  - intros _. exists i. split; [exact Hnum | by exists c].
  - intros _. exists i, c. split; [exact Hnum |]. split; [exact Hc |].
    intros _.
    exists n, (write_word h counter_addr (wrap_int (n + 1) mod 2 ^ 32)), i.
    split; [exact Hn |]. split; [by apply store_int_mapped with n |]. split.
    + rewrite load_int_write_word_other; [exact Hnum |].
      unfold apart, sizeof_GoldBoltVars, GoldBoltVars_number in *. lia.
    + exists c. unfold load_byte.
      by rewrite lookup_write_word_other by exact Hout.
Qed.

(** The hook's logic ends, without a call, when every address it goes
    through is mapped. *)
Lemma hook_logic_defined self h :
  invocable h self -> exists h', hook_logic self h = Some (tt, h', []).
Proof.
  intros (st & vars & Hst & Hpv & H0 & H2). hook_unfold.
  do 2 hook_load. destruct (Z.eqb_spec st 0) as [E0 | E0].
  { destruct (H0 E0) as (i & Hnum & [c Hc]). hook_load.
    eexists. apply store_some. by apply store_byte_mapped with c. }
  hook_load. destruct (Z.eqb_spec st 2) as [E2 | E2]; [| by eexists].
  destruct (H2 E2) as (i & c & Hnum & Hc & Hzero). do 2 hook_load.
  destruct (Z.eqb_spec c 0) as [Ec | Ec]; [| by eexists].
  destruct (Hzero Ec) as (n & h1 & i' & Hn & Hstore & Hnum' & [c' Hc']).
  hook_load. erewrite bind_pure by (apply store_some; exact Hstore).
  hook_load. eexists. apply store_some. by apply store_byte_mapped with c'.
Qed.

(** And only then. *)
Lemma hook_logic_some_invocable self h r :
  hook_logic self h = Some r -> invocable h self.
Proof.
  hook_unfold. intros Hrun.
  apply bind_inv in Hrun as (vars & ? & ? & ? & ? & ? & Hpv & Hrun & _).
  apply load_inv in Hpv as (Hpv & -> & _).
  apply bind_inv in Hrun as (st & ? & ? & ? & ? & ? & Hst & Hrun & _).
  apply load_inv in Hst as (Hst & -> & _).
  exists st, vars. split; [exact Hst |]. split; [exact Hpv |].
  destruct (Z.eqb_spec st 0) as [E0 | E0].
  { split; [intros _ | lia].
    apply bind_inv in Hrun as (i & ? & ? & ? & ? & ? & Hnum & Hrun & _).
    apply load_inv in Hnum as (Hnum & -> & _).
    apply store_inv in Hrun as [Hrun _].
    apply store_byte_inv in Hrun as [_ Hc]. by exists i. }
  split; [done | intros E2].
  apply bind_inv in Hrun as (st' & ? & ? & ? & ? & ? & Hst' & Hrun & _).
  apply load_inv in Hst' as (Hst' & -> & _).
  assert (st' = st) as -> by congruence.
  destruct (Z.eqb_spec st 2) as [_ | ?]; [| done].
  apply bind_inv in Hrun as (i & ? & ? & ? & ? & ? & Hnum & Hrun & _).
  apply load_inv in Hnum as (Hnum & -> & _).
  apply bind_inv in Hrun as (c & ? & ? & ? & ? & ? & Hc & Hrun & _).
  apply load_inv in Hc as (Hc & -> & _).
  exists i, c. split; [exact Hnum |]. split; [exact Hc |]. intros Ec.
  destruct (Z.eqb_spec c 0) as [_ | ?]; [| done].
  apply bind_inv in Hrun as (n & ? & ? & ? & ? & ? & Hn & Hrun & _).
  apply load_inv in Hn as (Hn & -> & _).
  apply bind_inv in Hrun as (? & h1 & ? & ? & ? & ? & Hstore & Hrun & _).
  apply store_inv in Hstore as [Hstore _].
  apply bind_inv in Hrun as (i' & ? & ? & ? & ? & ? & Hnum' & Hrun & _).
  apply load_inv in Hnum' as (Hnum' & -> & _).
  apply store_inv in Hrun as [Hrun _].
  apply store_byte_inv in Hrun as [_ Hc'].
  by exists n, h1, i'.
Qed.

(** ** One invocation *)

(** C1, as the code has it: when the hook is invoked for a bolt in state 2
    that is in its place (the counter and the flag of the bolt mapped, the
    flag no byte of the counter, the pVars not where the counter is) and
    whose flag is 0, its logic ends with the counter one higher in 32-bit
    arithmetic (exactly one higher when the counter was below [int_max];
    from [int_max] it comes back to [int_min]) and with the flag of the bolt
    at 1; when the flag is not 0 the whole memory is left as it was. *)
Theorem collect_counts_once self h vars i n :
  gold_bolt_at h self 2 vars i ->
  n_gold_bolts_collected h = Some n ->
  (collected_bolt h i = Some 0 ->
   exists h', hook_logic self h = Some (tt, h', []) /\
     n_gold_bolts_collected h' = Some (wrap_int (n + 1)) /\
     (n < int_max -> n_gold_bolts_collected h' = Some (n + 1)) /\
     collected_bolt h' i = Some 1) /\
  (forall c, collected_bolt h i = Some c -> c <> 0 ->
   hook_logic self h = Some (tt, h, [])).
Proof.
  intros Hb Hn. split.
  - intros Hc.
    destruct (hook_globals self h 2 vars i n 0 Hb Hn Hc)
      as (h' & Hrun & Hn' & Hi & _).
    exists h'. split; [exact Hrun |]. split; [exact Hn' |].
    split; [| exact Hi].
    intros Hlt. rewrite Hn'. cbn [Z.eqb Pos.eqb andb]. f_equal.
    apply wrap_int_succ. apply load_int_range in Hn.
    unfold int_range in Hn. lia.
  - intros c Hc Hne. by apply hook_logic_counted with vars i c.
Qed.

(** C4, as the code has it: when the hook is invoked for a bolt in state 0
    that is in its place, its logic ends with the flag of the bolt at 0 and
    the counter as it was. *)
Theorem reset_clears_flag self h vars i :
  gold_bolt_at h self 0 vars i ->
  exists h', hook_logic self h = Some (tt, h', []) /\
    collected_bolt h' i = Some 0 /\
    n_gold_bolts_collected h' = n_gold_bolts_collected h.
Proof.
  intros Hb. destruct (gold_bolt_counter _ _ _ _ _ Hb) as (n & c & Hn & Hc).
  destruct (hook_globals self h 0 vars i n c Hb Hn Hc)
    as (h' & Hrun & Hn' & Hi & _).
  exists h'. split; [exact Hrun |]. split; [exact Hi |]. by rewrite Hn', Hn.
Qed.

(** C5: when the hook is invoked for a moby whose state is neither 0 nor 2,
    its logic leaves the whole memory, so the counter and every flag, as it
    was; the game's update function is still called, on that memory. *)
Theorem pass_through host_code self h st vars :
  load_byte h (self + Moby_state) = Some st ->
  load_word h (self + Moby_pvars) = Some vars ->
  st <> 0 -> st <> 2 ->
  hook_logic self h = Some (tt, h, []) /\
  _start host_code self h =
    Some (tt, host_code gold_bolt_update_func self h,
          [HostCall gold_bolt_update_func self h]).
Proof.
  intros Hst Hpv H0 H2.
  assert (Hrun : hook_logic self h = Some (tt, h, []))
    by (by apply hook_logic_other with st vars).
  split; [exact Hrun | by apply start_after_logic].
Qed.

(** C6: whatever the state of the moby, an invocation of [_start] that does
    not fault makes exactly one call into the game: to the update function
    of the gold bolt, with the moby the hook was given, on the memory that
    the hook's own logic has left. *)
Theorem delegation host_code self h :
  invocable h self ->
  exists h1, hook_logic self h = Some (tt, h1, []) /\
    _start host_code self h =
      Some (tt, host_code gold_bolt_update_func self h1,
            [HostCall gold_bolt_update_func self h1]).
Proof.
  intros Hi. destruct (hook_logic_defined self h Hi) as [h1 Hrun].
  exists h1. split; [exact Hrun | by apply start_after_logic].
Qed.

(** C8, as the code has it: when the moby is out of the way of the counter
    and of the flag of its bolt, the hook's own logic writes none of its
    bytes: every field of the moby is as it was.  Of the moby the logic
    reads [state] and [pvars] only: with another byte anywhere else in the
    moby it ends with the same counter and the same flag. *)
Theorem moby_not_written self h st vars i :
  gold_bolt_at h self st vars i ->
  moby_clear self i ->
  exists h', hook_logic self h = Some (tt, h', []) /\
    (forall k, 0 <= k < sizeof_Moby -> h' !! (self + k) = h !! (self + k)) /\
    forall k b,
      0 <= k < sizeof_Moby -> k <> Moby_state -> outside k Moby_pvars 4 ->
      outside (self + k) vars sizeof_GoldBoltVars ->
      exists h2,
        hook_logic self (<[self + k := b]> h) = Some (tt, h2, []) /\
        n_gold_bolts_collected h2 = n_gold_bolts_collected h' /\
        collected_bolt h2 i = collected_bolt h' i.
Proof.
  intros Hb [Hflag Hcounter].
  destruct (gold_bolt_counter _ _ _ _ _ Hb) as (n & c & Hn & Hc).
  destruct (hook_globals self h st vars i n c Hb Hn Hc)
    as (h' & Hrun & Hn' & Hi & Hframe).
  exists h'. split; [exact Hrun |]. split.
  - intros k Hk. apply Hframe.
    + unfold outside, apart in *. lia.
    + unfold outside in Hflag. lia.
  - intros k b Hk Hks Hkp Hkv.
    set (g := <[self + k := b]> h).
    assert (Hko : outside (self + k) counter_addr 4)
      by (unfold outside, apart in *; lia).
    assert (Hkf : self + k <> table_addr i)
      by (unfold outside in Hflag; lia).
    destruct Hb as (Hst & Hpv & Hnum & Hsn & Hsc & Hout & Hapart).
    assert (Hb' : gold_bolt_at g self st vars i).
    { unfold gold_bolt_at, g, n_gold_bolts_collected, collected_bolt,
        load_byte in *.
      rewrite !lookup_insert_ne by lia.
      rewrite (load_int_insert_other h (self + k) b counter_addr)
        by exact Hko.
      rewrite (load_int_insert_other h (self + k) b
                 (vars + GoldBoltVars_number))
        by (unfold outside, sizeof_GoldBoltVars, GoldBoltVars_number in *;
            lia).
      rewrite load_word_insert_other by (unfold outside in *; lia).
      done. }
    assert (Hn2 : n_gold_bolts_collected g = Some n).
    { unfold g, n_gold_bolts_collected.
      by rewrite load_int_insert_other by exact Hko. }
    assert (Hc2 : collected_bolt g i = Some c).
    { unfold g, collected_bolt, load_byte. by rewrite lookup_insert_ne. }
    destruct (hook_globals self g st vars i n c Hb' Hn2 Hc2)
      as (h2 & Hrun2 & Hn2' & Hi2 & _).
    exists h2. split; [exact Hrun2 |]. by rewrite Hn2', Hi2, Hn', Hi.
Qed.

(** C9, as the code has it: an invocation for a bolt in its place, number
    [i], leaves every other entry of the table ([collected_bolt[j]] that is
    no byte of the counter) as it was, whatever the state of the bolt. *)
Theorem other_flags_kept self h st vars i :
  gold_bolt_at h self st vars i ->
  exists h', hook_logic self h = Some (tt, h', []) /\
    forall j, j <> i -> outside (table_addr j) counter_addr 4 ->
      collected_bolt h' j = collected_bolt h j.
Proof.
  intros Hb. destruct (gold_bolt_counter _ _ _ _ _ Hb) as (n & c & Hn & Hc).
  destruct (hook_table self h st vars i n c Hb Hn Hc)
    as (h' & Hrun & _ & Hf).
  exists h'. split; [exact Hrun |]. intros j Hj Hout.
  rewrite (Hf j Hout). by destruct (Z.eqb_spec j i).
Qed.

(** ** More on one invocation *)

(** X1: the hook's logic ends exactly when every address it goes through
    is mapped: the two fields of the moby and, for a moby in state 0 or 2,
    the number in its pVars and the flag with that number (then the
    counter, for a collection).  A number whose flag is not mapped is a
    fault; in any other state the pVars pointer is never followed. *)
Theorem hook_completes_iff self h :
  (exists h', hook_logic self h = Some (tt, h', [])) <-> invocable h self.
Proof.
  split.
  - intros [h' Hrun]. by apply hook_logic_some_invocable in Hrun.
  - apply hook_logic_defined.
Qed.

(** X2: what one invocation for a bolt in its place leaves in the counter
    and in the flag of the bolt depends on four values only: the state of
    the moby, the number of the bolt, the counter and the flag of that
    bolt.  Two memories that agree on these end with the same counter and
    the same flag for the bolt. *)
Theorem hook_reads_own_flag_only self1 self2 h1 h2 st vars1 vars2 i :
  gold_bolt_at h1 self1 st vars1 i -> gold_bolt_at h2 self2 st vars2 i ->
  n_gold_bolts_collected h1 = n_gold_bolts_collected h2 ->
  collected_bolt h1 i = collected_bolt h2 i ->
  exists h1' h2',
    hook_logic self1 h1 = Some (tt, h1', []) /\
    hook_logic self2 h2 = Some (tt, h2', []) /\
    n_gold_bolts_collected h1' = n_gold_bolts_collected h2' /\
    collected_bolt h1' i = collected_bolt h2' i.
Proof.
  intros Hb1 Hb2 Hn Hf.
  destruct (gold_bolt_counter _ _ _ _ _ Hb1) as (n & c & Hn1 & Hc1).
  assert (Hn2 : n_gold_bolts_collected h2 = Some n) by congruence.
  assert (Hc2 : collected_bolt h2 i = Some c) by congruence.
  destruct (hook_globals self1 h1 st vars1 i n c Hb1 Hn1 Hc1)
    as (h1' & Hrun1 & Hn1' & Hi1 & _).
  destruct (hook_globals self2 h2 st vars2 i n c Hb2 Hn2 Hc2)
    as (h2' & Hrun2 & Hn2' & Hi2 & _).
  exists h1', h2'. split; [exact Hrun1 |]. split; [exact Hrun2 |].
  by rewrite Hn1', Hn2', Hi1, Hi2.
Qed.

(** ** Sequences of invocations: facts *)

Lemma same_globals_refl h : same_globals h h.
Proof. by split. Qed.

Lemma same_globals_trans h1 h2 h3 :
  same_globals h1 h2 -> same_globals h2 h3 -> same_globals h1 h3.
Proof.
  intros [Hn1 Hf1] [Hn2 Hf2]. split; [congruence |].
  intros j Hj. by rewrite Hf1, Hf2.
Qed.

Lemma run_nil_inv h h' : run [] h h' -> h' = h.
Proof. by inversion 1. Qed.

(** The counter and the flags after the first invocation of a sequence. *)
Lemma run_step st i obs h h' :
  run ((st, i) :: obs) h h' ->
  exists n c h2,
    in_table i /\
    n_gold_bolts_collected h = Some n /\
    collected_bolt h i = Some c /\
    run obs h2 h' /\
    n_gold_bolts_collected h2 =
      Some (if (st =? 2) && (c =? 0) then wrap_int (n + 1) else n) /\
    forall j, in_table j ->
      collected_bolt h2 j =
        if j =? i then
          Some (if st =? 0 then 0
                else if (st =? 2) && (c =? 0) then 1 else c)
        else collected_bolt h j.
Proof.
  inversion 1
    as [| self st' vars i' h0 h1 h2 h3 obs' [Hn Hf] Hb Hi Hrun Hrest]; subst.
  destruct (gold_bolt_counter _ _ _ _ _ Hb) as (n & c & Hn1 & Hc1).
  destruct (hook_table self h1 st vars i n c Hb Hn1 Hc1)
    as (h2' & Hrun' & Hn2 & Hf2).
  assert (h2' = h2) as -> by congruence.
  exists n, c, h2. split; [exact Hi |]. split; [congruence |].
  split; [by rewrite (Hf i Hi) |]. split; [exact Hrest |].
  split; [exact Hn2 |]. intros j Hj.
  rewrite (Hf2 j (in_table_outside_counter j Hj)).
  destruct (j =? i); [done | by rewrite (Hf j Hj)].
Qed.

Lemma run_same_start obs h0 h h' :
  obs <> [] -> same_globals h0 h -> run obs h h' -> run obs h0 h'.
Proof.
  intros Hne Hsame Hrun.
  destruct Hrun as [h | self st vars i h h1 h2 h3 obs Hs Hb Hi Hl Hrest];
    [done |].
  eapply run_cons; [| exact Hb | exact Hi | exact Hl | exact Hrest].
  by apply same_globals_trans with h.
Qed.

(** *** The flag of a bolt along a sequence *)

Lemma collected_since_reset_nil i : ~ collected_since_reset i [].
Proof. intros (l1 & l2 & Heq & _). by destruct l1. Qed.

Lemma collected_since_reset_cons i o obs :
  collected_since_reset i (o :: obs) <->
  collected_since_reset i obs \/
  (o = (2, i) /\ ((2, i) ∉ obs) /\ ((0, i) ∉ obs)).
Proof.
  split.
  - intros (l1 & l2 & Heq & H2 & H0). destruct l1 as [| o' l1].
    + injection Heq as -> ->. by right.
    + injection Heq as -> ->. left. by exists l1, l2.
  - intros [(l1 & l2 & -> & H2 & H0) | (-> & H2 & H0)].
    + by exists (o :: l1), l2.
    + by exists [], obs.
Qed.

Lemma collected_since_reset_elem i obs :
  (2, i) ∈ obs -> (0, i) ∉ obs -> collected_since_reset i obs.
Proof.
  intros Hin H0. apply list_elem_of_split_r in Hin as (l1 & l2 & -> & H2).
  exists l1, l2. split; [done |]. split; [done |].
  intros Hl2. apply H0. apply elem_of_app. right. by right.
Qed.

Lemma run_flag i obs : forall h h',
  run obs h h' ->
  in_table i ->
  collected_bolt h i = Some 0 \/ collected_bolt h i = Some 1 ->
  (collected_bolt h' i = Some 0 \/ collected_bolt h' i = Some 1) /\
  (collected_bolt h' i = Some 1 <->
   collected_since_reset i obs \/
   (collected_bolt h i = Some 1 /\ (0, i) ∉ obs)).
Proof.
  induction obs as [| [st idx] obs IH]; intros h h' Hrun Hi H01.
  - apply run_nil_inv in Hrun as ->. split; [done |]. split.
    + intros H1. right. split; [done | apply not_elem_of_nil].
    + intros [Hc | [H1 _]]; [by apply collected_since_reset_nil in Hc | done].
  - apply run_step in Hrun
      as (n & c & h2 & Hidx & Hn & Hc & Hrest & _ & Hf).
    specialize (Hf i Hi).
    assert (Hsum :
      (idx = i /\ st = 0 /\ collected_bolt h2 i = Some 0) \/
      (idx = i /\ st = 2 /\ collected_bolt h2 i = Some 1) \/
      ((st, idx) <> (2, i) /\ (st, idx) <> (0, i) /\
       collected_bolt h2 i = collected_bolt h i)).
    { destruct (Z.eqb_spec i idx) as [<- | Hne].
      - destruct (Z.eqb_spec st 0) as [-> | H0]; [by left |].
        destruct (Z.eqb_spec st 2) as [-> | H2]; cbn [andb] in Hf.
        + right. left. split; [done |]. split; [done |]. rewrite Hf.
          assert (c = 0 \/ c = 1) as [-> | ->]; [| done | done].
          destruct H01 as [H | H]; rewrite Hc in H; injection H; auto.
        + right. right. split; [congruence |]. split; [congruence |].
          by rewrite Hf, Hc.
      - right. right. split; [congruence |]. split; [congruence |].
        exact Hf. }
    assert (H01' : collected_bolt h2 i = Some 0 \/
                   collected_bolt h2 i = Some 1).
    { destruct Hsum as [(_ & _ & ->) | [(_ & _ & ->) | (_ & _ & ->)]];
        [by left | by right | exact H01]. }
    destruct (IH h2 h' Hrest Hi H01') as [Hfin Hiff].
    split; [exact Hfin |].
    rewrite Hiff, collected_since_reset_cons, not_elem_of_cons.
    destruct Hsum as [(-> & -> & HF) | [(-> & -> & HF) | (Hn2 & Hn0 & HF)]];
      rewrite HF.
    + split.
      * intros [Hcs | [H1 _]]; [by left; left | done].
      * intros [[Hcs | (He & _)] | (_ & Hne & _)];
          [by left | done | done].
    + split.
      * intros [Hcs | [_ H0]]; [by left; left |].
        destruct (decide ((2, i) ∈ obs)) as [Hin | Hin].
        -- left. left. by apply collected_since_reset_elem.
        -- left. by right.
      * intros [[Hcs | (_ & _ & H0)] | (_ & _ & H0)];
          [by left | by right | by right].
    + split.
      * intros [Hcs | [H1 H0]]; [by left; left |]. right.
        split; [done |]. split; [congruence | done].
      * intros [[Hcs | (He & _)] | (H1 & _ & H0)];
          [by left | congruence | by right].
Qed.

(** C7, as the code has it: along every sequence of invocations for bolts
    in their place with their numbers in the table, started from a table
    whose entries are all 0, the flag of bolt [i] is 0 or 1, and it is 1 at
    the end exactly when the most recent invocation with state 2 for [i] has
    no invocation with state 0 for [i] after it.  In one invocation an entry
    of the table changes only in two ways: from 0 to 1 when its own bolt is
    in state 2, and to 0 when its own bolt is in state 0. *)
Theorem flag_tracks_last_transition :
  (forall i obs h h',
     run obs h h' ->
     (forall j, in_table j -> collected_bolt h j = Some 0) ->
     in_table i ->
     (collected_bolt h' i = Some 0 \/ collected_bolt h' i = Some 1) /\
     (collected_bolt h' i = Some 1 <-> collected_since_reset i obs)) /\
  (forall self h st vars i h' j,
     gold_bolt_at h self st vars i ->
     hook_logic self h = Some (tt, h', []) ->
     outside (table_addr j) counter_addr 4 ->
     collected_bolt h' j <> collected_bolt h j ->
     j = i /\
     ((st = 2 /\ collected_bolt h j = Some 0 /\
       collected_bolt h' j = Some 1) \/
      (st = 0 /\ collected_bolt h' j = Some 0))).
Proof.
  split.
  - intros i obs h h' Hrun Hzero Hi.
    destruct (run_flag i obs h h' Hrun Hi) as [H01 Hiff];
      [left; by apply Hzero |].
    split; [exact H01 |]. rewrite Hiff. split; [| by left].
    intros [Hc | [H1 _]]; [done |]. by rewrite Hzero in H1.
  - intros self h st vars i h' j Hb Hrun Hout Hne.
    destruct (gold_bolt_counter _ _ _ _ _ Hb) as (n & c & Hn & Hc).
    destruct (hook_table self h st vars i n c Hb Hn Hc)
      as (h2 & Hrun2 & _ & Hf).
    assert (h2 = h') as -> by congruence.
    specialize (Hf j Hout).
    destruct (Z.eqb_spec j i) as [-> | Hj]; [| congruence].
    split; [done |].
    destruct (Z.eqb_spec st 0) as [E0 | E0]; [by right |].
    destruct (Z.eqb_spec st 2) as [E2 | E2]; [| cbn in Hf; congruence].
    destruct (Z.eqb_spec c 0) as [-> | Ec]; [by left | cbn in Hf; congruence].
Qed.

(** *** The counter along a sequence *)

Lemma run_collect_again i k : forall h h' c,
  collected_bolt h i = Some c -> c <> 0 ->
  run (repeat (2, i) k) h h' -> same_globals h h'.
Proof.
  induction k as [| k IH]; intros h h' c Hc Hne Hrun.
  - apply run_nil_inv in Hrun as ->. apply same_globals_refl.
  - cbn [repeat] in Hrun.
    apply run_step in Hrun
      as (n & c' & h2 & Hi & Hn & Hc' & Hrest & Hn2 & Hf).
    assert (c' = c) as -> by congruence.
    destruct (Z.eqb_spec c 0) as [? | _]; [done |].
    cbn [Z.eqb Pos.eqb andb] in Hn2, Hf.
    assert (Hsame : same_globals h h2).
    { split; [congruence |]. intros j Hj. rewrite (Hf j Hj).
      destruct (Z.eqb_spec j i) as [-> | ?]; [by rewrite Hc | done]. }
    apply same_globals_trans with h2; [exact Hsame |].
    apply (IH h2 h' c); [| exact Hne | exact Hrest].
    destruct Hsame as [_ Hf']. by rewrite <- (Hf' i Hi).
Qed.

Lemma run_repeat_collect i k h h' :
  run (repeat (2, i) (S k)) h h' ->
  exists n c,
    in_table i /\
    n_gold_bolts_collected h = Some n /\
    collected_bolt h i = Some c /\
    n_gold_bolts_collected h' =
      Some (if c =? 0 then wrap_int (n + 1) else n) /\
    forall j, in_table j ->
      collected_bolt h' j =
        if j =? i then Some (if c =? 0 then 1 else c)
        else collected_bolt h j.
Proof.
  intros Hrun. cbn [repeat] in Hrun.
  apply run_step in Hrun as (n & c & h2 & Hi & Hn & Hc & Hrest & Hn2 & Hf).
  cbn [Z.eqb Pos.eqb andb] in Hn2, Hf.
  exists n, c. split; [exact Hi |]. split; [exact Hn |]. split; [exact Hc |].
  assert (Hc2 : collected_bolt h2 i = Some (if c =? 0 then 1 else c)).
  { by rewrite (Hf i Hi), Z.eqb_refl. }
  assert (Hne : (if c =? 0 then 1 else c) <> 0).
  { destruct (Z.eqb_spec c 0); [done | done]. }
  destruct (run_collect_again i k h2 h' _ Hc2 Hne Hrest) as [Hn' Hf'].
  split; [by rewrite <- Hn' |]. intros j Hj. by rewrite <- (Hf' j Hj), Hf.
Qed.

Lemma run_reset_collect i h h' :
  run [(0, i); (2, i)] h h' ->
  exists n,
    n_gold_bolts_collected h = Some n /\
    n_gold_bolts_collected h' = Some (wrap_int (n + 1)) /\
    collected_bolt h' i = Some 1.
Proof.
  intros Hrun.
  apply run_step in Hrun as (n & c & h2 & Hi & Hn & Hc & Hrest & Hn2 & Hf).
  cbn [Z.eqb andb] in Hn2, Hf.
  destruct (run_repeat_collect i 0 h2 h' Hrest)
    as (n2 & c2 & _ & Hn2' & Hc2 & Hn' & Hf').
  assert (n2 = n) as -> by congruence.
  assert (c2 = 0) as ->.
  { rewrite (Hf i Hi), Z.eqb_refl in Hc2. congruence. }
  exists n. split; [exact Hn |]. split; [exact Hn' |].
  by rewrite (Hf' i Hi), Z.eqb_refl.
Qed.

Lemma run_counter_bounds obs : forall h h' n,
  run obs h h' ->
  n_gold_bolts_collected h = Some n ->
  n + Z.of_nat (List.length obs) <= int_max ->
  exists n', n_gold_bolts_collected h' = Some n' /\
    n <= n' <= n + Z.of_nat (List.length obs).
Proof.
  induction obs as [| [st i] obs IH]; intros h h' n Hrun Hn Hhi.
  - apply run_nil_inv in Hrun as ->. exists n. split; [exact Hn |].
    cbn [List.length]. lia.
  - apply run_step in Hrun
      as (n0 & c & h2 & Hi & Hn0 & Hc & Hrest & Hn2 & _).
    assert (n0 = n) as -> by congruence.
    pose proof (load_int_range _ _ _ Hn) as Hr. unfold int_range in Hr.
    cbn [List.length] in *.
    destruct ((st =? 2) && (c =? 0)).
    + rewrite wrap_int_succ in Hn2 by lia.
      destruct (IH h2 h' (n + 1) Hrest Hn2) as (n' & Hn' & Hb); [lia |].
      exists n'. split; [exact Hn' | lia].
    + destruct (IH h2 h' n Hrest Hn2) as (n' & Hn' & Hb); [lia |].
      exists n'. split; [exact Hn' | lia].
Qed.

(** C2, as the code has it: for a bolt in its place with its number in the
    table, two or more invocations in a row with state 2 leave the counter
    and the flags of the table as a single such invocation does: the counter
    is one higher in 32-bit arithmetic (exactly one higher when it was below
    [int_max]) if the flag of the bolt was 0 at the start, and is what it
    was if the flag was not 0. *)
Theorem repeated_collect_counts_once i k h h1 hk :
  (2 <= k)%nat ->
  run [(2, i)] h h1 ->
  run (repeat (2, i) k) h hk ->
  n_gold_bolts_collected hk = n_gold_bolts_collected h1 /\
  (forall j, in_table j -> collected_bolt hk j = collected_bolt h1 j) /\
  exists n c,
    n_gold_bolts_collected h = Some n /\
    collected_bolt h i = Some c /\
    (c = 0 ->
     n_gold_bolts_collected hk = Some (wrap_int (n + 1)) /\
     (n < int_max -> n_gold_bolts_collected hk = Some (n + 1))) /\
    (c <> 0 -> n_gold_bolts_collected hk = Some n).
Proof.
  intros Hk Hone Hmany. destruct k as [| k]; [lia |].
  destruct (run_repeat_collect i 0 h h1 Hone)
    as (n & c & Hi & Hn & Hc & Hn1 & Hf1).
  destruct (run_repeat_collect i k h hk Hmany)
    as (n' & c' & _ & Hn' & Hc' & Hnk & Hfk).
  assert (n' = n) as -> by congruence.
  assert (c' = c) as -> by congruence.
  split; [congruence |].
  split; [intros j Hj; by rewrite (Hfk j Hj), (Hf1 j Hj) |].
  exists n, c. split; [exact Hn |]. split; [exact Hc |].
  pose proof (load_int_range _ _ _ Hn) as Hr. unfold int_range in Hr.
  split.
  - intros ->. cbn [Z.eqb] in Hnk. split; [exact Hnk |].
    intros Hlt. rewrite Hnk. f_equal. apply wrap_int_succ. lia.
  - intros Hne. by destruct (Z.eqb_spec c 0).
Qed.

(** C3, as the code has it: for a bolt in its place with its number in the
    table and its flag at 1, an invocation with state 0 followed by one with
    state 2 leaves the counter one higher in 32-bit arithmetic (exactly one
    higher when it was below [int_max]) and the flag at 1, where an
    invocation with state 2 alone would have left the counter as it was. *)
Theorem reset_reenables_counting i h h' :
  collected_bolt h i = Some 1 ->
  run [(0, i); (2, i)] h h' ->
  exists n,
    n_gold_bolts_collected h = Some n /\
    n_gold_bolts_collected h' = Some (wrap_int (n + 1)) /\
    (n < int_max -> n_gold_bolts_collected h' = Some (n + 1)) /\
    collected_bolt h' i = Some 1 /\
    (forall h1, run [(2, i)] h h1 -> n_gold_bolts_collected h1 = Some n).
Proof.
  intros Hc Hrun. destruct (run_reset_collect i h h' Hrun) as (n & Hn & Hn' & Hf).
  exists n. split; [exact Hn |]. split; [exact Hn' |].
  pose proof (load_int_range _ _ _ Hn) as Hr. unfold int_range in Hr.
  split; [intros Hlt; rewrite Hn'; f_equal; apply wrap_int_succ; lia |].
  split; [exact Hf |]. intros h1 Hone.
  destruct (run_repeat_collect i 0 h h1 Hone)
    as (n1 & c1 & _ & Hn1 & Hc1 & Hn1' & _).
  assert (c1 = 1) as -> by congruence. cbn [Z.eqb] in Hn1'. congruence.
Qed.

(** C10, as the code has it: one invocation for a bolt in its place leaves
    the counter as it was or one higher in 32-bit arithmetic, the latter
    only for a bolt in state 2 (a reset does not take the count back); so
    from a counter below [int_max] the counter stays or goes up by exactly
    1, and along a sequence of invocations that cannot take it past
    [int_max] it never goes down. *)
Theorem counter_never_taken_back :
  (forall self h st vars i n,
     gold_bolt_at h self st vars i ->
     n_gold_bolts_collected h = Some n ->
     exists h', hook_logic self h = Some (tt, h', []) /\
       (n_gold_bolts_collected h' = Some n \/
        (st = 2 /\
         n_gold_bolts_collected h' = Some (wrap_int (n + 1)))) /\
       (n < int_max ->
        n_gold_bolts_collected h' = Some n \/
        n_gold_bolts_collected h' = Some (n + 1))) /\
  (forall obs h h' n,
     run obs h h' ->
     n_gold_bolts_collected h = Some n ->
     n + Z.of_nat (List.length obs) <= int_max ->
     exists n', n_gold_bolts_collected h' = Some n' /\
       n <= n' <= n + Z.of_nat (List.length obs)).
Proof.
  split; [| intros obs h h' n; apply run_counter_bounds].
  intros self h st vars i n Hb Hn.
  destruct (gold_bolt_counter _ _ _ _ _ Hb) as (n0 & c & Hn0 & Hc).
  assert (n0 = n) as -> by congruence.
  destruct (hook_globals self h st vars i n c Hb Hn Hc)
    as (h' & Hrun & Hn' & _).
  exists h'. split; [exact Hrun |].
  pose proof (load_int_range _ _ _ Hn) as Hr. unfold int_range in Hr.
  destruct (Z.eqb_spec st 2) as [-> | H2]; cbn [andb] in Hn'.
  - destruct (c =? 0).
    + split; [by right |]. intros Hlt. right. rewrite Hn'. f_equal.
      apply wrap_int_succ. lia.
    + split; [by left |]. intros _. by left.
  - split; [by left |]. intros _. by left.
Qed.

(** ** More on sequences of invocations *)

(** X3: invocations for two different bolts, each in its place with its
    number in the table, commute: whichever of the two comes first, the
    counter and all the flags of the table end the same. *)
Theorem different_bolts_commute s1 s2 i j h ha hb :
  i <> j ->
  run [(s1, i); (s2, j)] h ha ->
  run [(s2, j); (s1, i)] h hb ->
  same_globals ha hb.
Proof.
  intros Hij Ha Hb.
  apply run_step in Ha as (n & ci & a1 & Hi & Hn & Hci & Ha & Hna1 & Hfa1).
  apply run_step in Ha as (na & cj' & a2 & Hj & Hna & Hcj' & Ha & Hna2 & Hfa2).
  apply run_nil_inv in Ha as ->.
  apply run_step in Hb as (n' & cj & b1 & _ & Hn' & Hcj & Hb & Hnb1 & Hfb1).
  apply run_step in Hb as (nb & ci' & b2 & _ & Hnb & Hci' & Hb & Hnb2 & Hfb2).
  apply run_nil_inv in Hb as ->.
  assert (n' = n) as -> by congruence.
  assert (Hji : (j =? i) = false) by lia.
  assert (Hij' : (i =? j) = false) by lia.
  assert (cj' = cj) as ->.
  { rewrite (Hfa1 j Hj), Hji in Hcj'. congruence. }
  assert (ci' = ci) as ->.
  { rewrite (Hfb1 i Hi), Hij' in Hci'. congruence. }
  rewrite Hna1 in Hna. injection Hna as <-.
  rewrite Hnb1 in Hnb. injection Hnb as <-.
  split.
  - rewrite Hna2, Hnb2. f_equal.
    destruct ((s1 =? 2) && (ci =? 0)); destruct ((s2 =? 2) && (cj =? 0));
      reflexivity.
  - intros k Hk. rewrite (Hfa2 k Hk), (Hfb2 k Hk), (Hfa1 k Hk), (Hfb1 k Hk).
    destruct (Z.eqb_spec k i) as [Hki | Hki];
      destruct (Z.eqb_spec k j) as [Hkj | Hkj]; subst; done.
Qed.

(** X4: a bolt in its place that stays in state 0 is reset at every
    invocation, and one reset or many leave the same behind: the counter as
    it was, the flag of the bolt at 0, the other flags of the table as they
    were. *)
Theorem repeated_reset i k : forall h h',
  run (repeat (0, i) (S k)) h h' ->
  n_gold_bolts_collected h' = n_gold_bolts_collected h /\
  forall j, in_table j ->
    collected_bolt h' j = if j =? i then Some 0 else collected_bolt h j.
Proof.
  induction k as [| k IH]; intros h h' Hrun.
  - cbn [repeat] in Hrun.
    apply run_step in Hrun as (n & c & h2 & Hi & Hn & Hc & Hnil & Hn2 & Hf).
    apply run_nil_inv in Hnil as ->. cbn [Z.eqb andb] in Hn2, Hf.
    split; [congruence | exact Hf].
  - change (repeat (0, i) (S (S k))) with ((0, i) :: repeat (0, i) (S k))
      in Hrun.
    apply run_step in Hrun as (n & c & h2 & Hi & Hn & Hc & Hrest & Hn2 & Hf).
    cbn [Z.eqb andb] in Hn2, Hf.
    destruct (IH h2 h' Hrest) as [Hn' Hf']. split; [congruence |].
    intros j Hj. rewrite (Hf' j Hj), (Hf j Hj). by destruct (j =? i).
Qed.

(** X5: after any sequence of invocations that started from a table whose
    entries are all 0, one more invocation for bolt [i] moves the counter
    exactly when the bolt is in state 2 and has not been collected since its
    last reset; it then moves it by 1 (in 32-bit arithmetic). *)
Theorem counter_moves_iff_fresh_collect st i obs h h1 h2 :
  (forall j, in_table j -> collected_bolt h j = Some 0) ->
  run obs h h1 ->
  run [(st, i)] h1 h2 ->
  exists n,
    n_gold_bolts_collected h1 = Some n /\
    (st = 2 /\ ~ collected_since_reset i obs ->
     n_gold_bolts_collected h2 = Some (wrap_int (n + 1))) /\
    (st <> 2 \/ collected_since_reset i obs ->
     n_gold_bolts_collected h2 = Some n).
Proof.
  intros Hzero Hrun Hone.
  apply run_step in Hone as (n & c & h2' & Hi & Hn & Hc & Hnil & Hn2 & _).
  apply run_nil_inv in Hnil as ->.
  destruct (run_flag i obs h h1 Hrun Hi) as [H01 Hiff];
    [left; by apply Hzero |].
  assert (Hcsr : c = 1 <-> collected_since_reset i obs).
  { split.
    - intros ->. apply Hiff in Hc as [Hcs | [H1 _]]; [done |].
      rewrite (Hzero i Hi) in H1. done.
    - intros Hcs. assert (H1 : collected_bolt h1 i = Some 1)
        by (apply Hiff; by left). congruence. }
  assert (Hc01 : c = 0 \/ c = 1).
  { destruct H01 as [H | H]; rewrite Hc in H; injection H; auto. }
  exists n. split; [exact Hn |]. rewrite Hn2. split.
  - intros [-> Hno]. destruct Hc01 as [-> | ->]; [done |].
    exfalso. by apply Hno, Hcsr.
  - intros [Hst | Hcs].
    + by destruct (Z.eqb_spec st 2).
    + apply Hcsr in Hcs as ->. by rewrite andb_false_r.
Qed.

(** *** Counting without resets *)

Lemma size_new_bolt (i : Z) (C S : gset Z) :
  i ∉ S -> size (({[ i ]} ∪ C) ∖ S) = Datatypes.S (size (C ∖ ({[ i ]} ∪ S))).
Proof.
  intros Hi.
  replace (({[ i ]} ∪ C) ∖ S) with ({[ i ]} ∪ C ∖ ({[ i ]} ∪ S)).
  - rewrite size_union, size_singleton; [done |].
    apply disjoint_singleton_l.
    rewrite elem_of_difference, elem_of_union, elem_of_singleton. tauto.
  - apply set_eq. intros x. rewrite !elem_of_union, !elem_of_difference,
      !elem_of_union, !elem_of_singleton.
    destruct (decide (x = i)) as [-> | Hx]; tauto.
Qed.

Lemma known_bolt_difference (i : Z) (C S : gset Z) :
  i ∈ S -> ({[ i ]} ∪ C) ∖ S = C ∖ S.
Proof.
  intros Hi. apply set_eq. intros x.
  rewrite !elem_of_difference, elem_of_union, elem_of_singleton.
  split; [intros [[-> | Hx] Hn]; tauto | tauto].
Qed.

Lemma run_counts_new_bolts obs : forall (S : gset Z) h h' n,
  (forall j, in_table j ->
     exists c, collected_bolt h j = Some c /\ (c <> 0 <-> j ∈ S)) ->
  n_gold_bolts_collected h = Some n ->
  (forall st i, (st, i) ∈ obs -> st <> 0) ->
  run obs h h' ->
  n_gold_bolts_collected h' =
    Some (wrap_int (n + Z.of_nat (size (collected obs ∖ S)))) /\
  forall j, in_table j ->
    exists c, collected_bolt h' j = Some c /\
      (c <> 0 <-> j ∈ S ∪ collected obs).
Proof.
  induction obs as [| [st i] obs IH]; intros S h h' n HS Hn Hno Hrun.
  - apply run_nil_inv in Hrun as ->. cbn [collected]. split.
    + rewrite difference_disjoint_L by apply disjoint_empty_l.
      rewrite size_empty, Z.add_0_r, wrap_int_small; [done |].
      by apply load_int_range in Hn.
    + intros j Hj. destruct (HS j Hj) as (c & Hc & Hiff).
      exists c. split; [done |]. rewrite Hiff, elem_of_union, elem_of_empty.
      tauto.
  - apply run_step in Hrun
      as (n0 & c & h2 & Hi & Hn0 & Hc & Hrest & Hn2 & Hf).
    assert (n0 = n) as -> by congruence.
    assert (Hst0 : (st =? 0) = false).
    { apply Z.eqb_neq. apply (Hno st i). by left. }
    assert (Hno' : forall st' i', (st', i') ∈ obs -> st' <> 0).
    { intros st' i' Hin. apply (Hno st' i'). by right. }
    destruct (HS i Hi) as (c' & Hc' & HiS).
    assert (c' = c) as -> by congruence.
    rewrite Hst0 in Hf. cbn [collected].
    destruct (Z.eqb_spec st 2) as [-> | Hst2]; cbn [andb] in Hn2, Hf.
    + destruct (Z.eqb_spec c 0) as [-> | Hc0].
      * assert (HniS : i ∉ S) by (intros Hin; by apply HiS in Hin).
        destruct (IH ({[ i ]} ∪ S) h2 h' (wrap_int (n + 1)))
          as [Hn' Hf']; try done.
        { intros j Hj. rewrite (Hf j Hj).
          destruct (Z.eqb_spec j i) as [-> | Hji].
          - exists 1. split; [done |].
            rewrite elem_of_union, elem_of_singleton. split; [by left | done].
          - destruct (HS j Hj) as (cj & Hcj & Hiff). exists cj.
            split; [done |].
            rewrite Hiff, elem_of_union, elem_of_singleton. tauto. }
        split.
        -- rewrite Hn', wrap_int_add_l, size_new_bolt by done.
           do 2 f_equal. lia.
        -- intros j Hj. destruct (Hf' j Hj) as (cj & Hcj & Hiff).
           exists cj. split; [done |].
           rewrite Hiff, !elem_of_union, elem_of_singleton. tauto.
      * assert (HinS : i ∈ S) by by apply HiS.
        destruct (IH S h2 h' n) as [Hn' Hf']; try done.
        { intros j Hj. rewrite (Hf j Hj).
          destruct (Z.eqb_spec j i) as [-> | Hji]; [by exists c |].
          apply (HS j Hj). }
        split.
        -- by rewrite Hn', known_bolt_difference.
        -- intros j Hj. destruct (Hf' j Hj) as (cj & Hcj & Hiff).
           exists cj. split; [done |].
           rewrite Hiff, !elem_of_union, elem_of_singleton.
           split; [tauto |]. intros [Hx | [-> | Hx]]; tauto.
    + destruct (IH S h2 h' n) as [Hn' Hf']; try done.
      intros j Hj. rewrite (Hf j Hj).
      destruct (Z.eqb_spec j i) as [-> | Hji]; [by exists c |].
      apply (HS j Hj).
Qed.

(** X6: along a sequence of invocations that starts from a table whose
    entries are all 0 and in which no bolt is in state 0, each bolt is
    counted once however often it is seen in state 2: the counter goes up
    by the number of different bolts seen in state 2 (in 32-bit arithmetic),
    and the flags at 1 are those of these bolts. *)
Theorem counter_counts_different_bolts obs h h' n :
  (forall j, in_table j -> collected_bolt h j = Some 0) ->
  n_gold_bolts_collected h = Some n ->
  (forall st i, (st, i) ∈ obs -> st <> 0) ->
  run obs h h' ->
  n_gold_bolts_collected h' =
    Some (wrap_int (n + Z.of_nat (size (collected obs)))) /\
  forall j, in_table j ->
    collected_bolt h' j = Some (if decide (j ∈ collected obs) then 1 else 0).
Proof.
  intros Hzero Hn Hno Hrun.
  destruct (run_counts_new_bolts obs ∅ h h' n) as [Hn' Hf]; try done.
  { intros j Hj. exists 0. split; [by apply Hzero |].
    rewrite elem_of_empty. tauto. }
  rewrite difference_empty_L in Hn'. split; [exact Hn' |].
  intros j Hj.
  destruct (run_flag j obs h h' Hrun Hj) as [H01 _];
    [left; by apply Hzero |].
  destruct (Hf j Hj) as (c & Hc & Hiff). rewrite union_empty_l_L in Hiff.
  rewrite Hc in *. case_decide as Hin.
  - destruct H01 as [H0 | H1]; [| exact H1].
    exfalso. injection H0 as ->. by apply Hiff.
  - destruct H01 as [H0 | H1]; [exact H0 |].
    exfalso. injection H1 as ->. apply Hin, Hiff. lia.
Qed.

(** *** Whole runs of [_start] *)

(** X7: when the game's own code leaves the counter and the table alone,
    running [_start] again and again, each time on the memory the game's
    update function has left, is a sequence of invocations of the hook's
    logic: it ends with the same counter and flags.  What is proved of
    sequences of invocations so holds of whole runs of [_start]. *)
Theorem starts_is_run host_code obs h h' :
  keeps_globals host_code ->
  starts host_code obs h h' ->
  exists h'', run obs h h'' /\ same_globals h'' h'.
Proof.
  intros Hkeep.
  induction 1 as [h | self st vars i h h1 h2 t obs Hb Hi Hstart Hrest IH].
  - exists h. split; [apply run_nil | apply same_globals_refl].
  - destruct (gold_bolt_counter _ _ _ _ _ Hb) as (n & c & Hn & Hc).
    destruct (hook_globals self h st vars i n c Hb Hn Hc)
      as (hl & Hl & _).
    rewrite (start_after_logic host_code self h hl Hl) in Hstart.
    injection Hstart as <- _.
    destruct IH as (h'' & Hrun & Hsame).
    destruct obs as [| o obs].
    + apply run_nil_inv in Hrun as ->. exists hl. split.
      * eapply run_cons;
          [apply same_globals_refl | exact Hb | exact Hi | exact Hl
          | apply run_nil].
      * apply same_globals_trans with (host_code gold_bolt_update_func self hl);
          [apply Hkeep | exact Hsame].
    + exists h''. split; [| exact Hsame].
      eapply run_cons;
        [apply same_globals_refl | exact Hb | exact Hi | exact Hl |].
      apply run_same_start
        with (host_code gold_bolt_update_func self hl); [done | apply Hkeep |].
      exact Hrun.
Qed.


(** ** The small level: facts *)

Lemma move_sample_bolt_same_globals st h :
  table_size <= 0x100000 -> same_globals h (move_sample_bolt st h).
Proof.
  intros Hsize. unfold move_sample_bolt. split.
  - unfold n_gold_bolts_collected. rewrite load_int_insert_other; [done |].
    unfold outside, sample_self, Moby_state, counter_addr. lia.
  - intros j Hj. unfold collected_bolt, load_byte.
    rewrite lookup_insert_ne; [done |].
    unfold in_table, table_addr, table_base, sample_self, Moby_state in *.
    lia.
Qed.

Lemma pickup_host_keeps_globals :
  table_size <= 0x100000 -> keeps_globals pickup_host.
Proof.
  intros Hsize target arg h. unfold pickup_host.
  destruct (arg =? sample_self);
    [by apply move_sample_bolt_same_globals | apply same_globals_refl].
Qed.

(** One more invocation for the first bolt, moved to [st] by the game, at
    the head of a sequence. *)
Lemma run_sample_tick st i obs h h2 h3 :
  table_size <= 0x100000 ->
  gold_bolt_at (move_sample_bolt st h) sample_self st sample_vars i ->
  in_table i ->
  hook_logic sample_self (move_sample_bolt st h) = Some (tt, h2, []) ->
  run obs h2 h3 ->
  run ((st, i) :: obs) h h3.
Proof.
  intros Hsize Hb Hi Hrun Hrest.
  eapply run_cons; [| exact Hb | exact Hi | exact Hrun | exact Hrest].
  by apply move_sample_bolt_same_globals.
Qed.

End GoldBolt.

(** ** The theorems at work on the small level

    The level is that of a PlayStation 3, with a table of 64 flags. *)

Ltac closed := vm_compute; reflexivity.

Ltac mapped := apply is_Some_alt; vm_compute; exact I.

Ltac clear_of :=
  unfold outside, apart, table_addr, table_base, counter_addr,
    sizeof_GoldBoltVars, sizeof_Moby, sample_vars, sample_self,
    second_vars, second_self;
  lia.

(** The bolt of a closed memory is in its place. *)
Ltac in_place :=
  split; [closed |]; split; [closed |]; split; [closed |];
  split; [mapped |]; split; [mapped |]; split; clear_of.

Ltac in_table64 := unfold in_table; lia.

Lemma collect_counts_once_witness :
  exists h',
    hook_logic BigEndian sample_self (sample_host BigEndian 2 5 0 []) =
      Some (tt, h', []) /\
    n_gold_bolts_collected BigEndian h' = Some 1 /\
    collected_bolt h' 5 = Some 1.
Proof.
  destruct (collect_counts_once BigEndian sample_self
              (sample_host BigEndian 2 5 0 []) sample_vars 5 0)
    as [Hnew _]; [in_place | closed |].
  destruct Hnew as (h' & Hrun & _ & Hn & Hc); [closed |].
  exists h'. split; [exact Hrun |]. split; [| exact Hc].
  apply Hn. unfold int_max. lia.
Defined.

(** C1 fails in three places.  At the top of the [int] range the counter
    goes from 2147483647 to -2147483648.  For a bolt numbered -2 the flag is
    a byte of the counter: from 0 the counter ends at 257 (at 65537 with the
    bytes in the other order), not at 1.  For a moby whose pVars pointer is
    the address of the counter, with 5 in the counter, the number is read
    again after the counter has gone to 6: flag 6 is set and flag 5 is
    not. *)
Lemma collect_at_int_max :
  (let h := sample_host BigEndian 2 5 2147483647 [] in
   gold_bolt_at BigEndian h sample_self 2 sample_vars 5 /\
   collected_bolt h 5 = Some 0 /\
   n_gold_bolts_collected BigEndian h = Some 2147483647 /\
   exists h', hook_logic BigEndian sample_self h = Some (tt, h', []) /\
     n_gold_bolts_collected BigEndian h' = Some (-2147483648)) /\
  (let h := sample_host BigEndian 2 (-2) 0 [] in
   load_byte h (sample_self + Moby_state) = Some 2 /\
   load_int BigEndian h sample_vars = Some (-2) /\
   collected_bolt h (-2) = Some 0 /\
   n_gold_bolts_collected BigEndian h = Some 0 /\
   exists h', hook_logic BigEndian sample_self h = Some (tt, h', []) /\
     n_gold_bolts_collected BigEndian h' = Some 257) /\
  (let h := sample_host LittleEndian 2 (-2) 0 [] in
   load_byte h (sample_self + Moby_state) = Some 2 /\
   load_int LittleEndian h sample_vars = Some (-2) /\
   collected_bolt h (-2) = Some 0 /\
   n_gold_bolts_collected LittleEndian h = Some 0 /\
   exists h', hook_logic LittleEndian sample_self h = Some (tt, h', []) /\
     n_gold_bolts_collected LittleEndian h' = Some 65537) /\
  (let h := stray_host BigEndian 2 5 in
   load_byte h (sample_self + Moby_state) = Some 2 /\
   load_word BigEndian h (sample_self + Moby_pvars) = Some counter_addr /\
   load_int BigEndian h counter_addr = Some 5 /\
   collected_bolt h 5 = Some 0 /\
   exists h', hook_logic BigEndian sample_self h = Some (tt, h', []) /\
     n_gold_bolts_collected BigEndian h' = Some 6 /\
     collected_bolt h' 5 = Some 0 /\
     collected_bolt h' 6 = Some 1).
Proof.
  cbv zeta. split; [| split; [| split]].
  - split; [in_place |]. split; [closed |]. split; [closed |].
    eexists. split; [eapply hook_logic_collect; [in_place | closed | closed] |].
    closed.
  - split; [closed |]. split; [closed |]. split; [closed |]. split; [closed |].
    exists (<[table_addr (-2) := 1]>
              (write_word BigEndian (sample_host BigEndian 2 (-2) 0 [])
                          counter_addr 1)).
    split; [reflexivity | closed].
  - split; [closed |]. split; [closed |]. split; [closed |]. split; [closed |].
    exists (<[table_addr (-2) := 1]>
              (write_word LittleEndian (sample_host LittleEndian 2 (-2) 0 [])
                          counter_addr 1)).
    split; [reflexivity | closed].
  - split; [closed |]. split; [closed |]. split; [closed |]. split; [closed |].
    exists (<[table_addr 6 := 1]>
              (write_word BigEndian (stray_host BigEndian 2 5)
                          counter_addr 6)).
    split; [reflexivity |]. split; [closed |]. split; closed.
Qed.

Lemma reset_clears_flag_witness :
  exists h',
    hook_logic BigEndian sample_self (sample_host BigEndian 0 5 1 [5]) =
      Some (tt, h', []) /\
    collected_bolt h' 5 = Some 0 /\
    n_gold_bolts_collected BigEndian h' =
      n_gold_bolts_collected BigEndian (sample_host BigEndian 0 5 1 [5]).
Proof.
  apply (reset_clears_flag BigEndian sample_self
           (sample_host BigEndian 0 5 1 [5]) sample_vars 5).
  in_place.
Defined.

(** C4 fails for a bolt numbered -1, whose flag is a byte of the counter:
    with 16843009 in the counter, the reset of the bolt leaves 16843008
    there (65793 with the bytes in the other order). *)
Lemma reset_at_counter_byte :
  (let h := sample_host BigEndian 0 (-1) 16843009 [] in
   load_byte h (sample_self + Moby_state) = Some 0 /\
   load_int BigEndian h sample_vars = Some (-1) /\
   n_gold_bolts_collected BigEndian h = Some 16843009 /\
   hook_logic BigEndian sample_self h =
     Some (tt, <[table_addr (-1) := 0]> h, []) /\
   n_gold_bolts_collected BigEndian (<[table_addr (-1) := 0]> h) =
     Some 16843008) /\
  (let h := sample_host LittleEndian 0 (-1) 16843009 [] in
   load_byte h (sample_self + Moby_state) = Some 0 /\
   load_int LittleEndian h sample_vars = Some (-1) /\
   n_gold_bolts_collected LittleEndian h = Some 16843009 /\
   hook_logic LittleEndian sample_self h =
     Some (tt, <[table_addr (-1) := 0]> h, []) /\
   n_gold_bolts_collected LittleEndian (<[table_addr (-1) := 0]> h) =
     Some 65793).
Proof. cbv zeta. repeat split; first [reflexivity | closed]. Qed.

Lemma pass_through_witness :
  hook_logic BigEndian sample_self (sample_host BigEndian 1 5 3 [5]) =
    Some (tt, sample_host BigEndian 1 5 3 [5], []) /\
  _start BigEndian idle_host sample_self (sample_host BigEndian 1 5 3 [5]) =
    Some (tt, sample_host BigEndian 1 5 3 [5],
          [HostCall gold_bolt_update_func sample_self
                    (sample_host BigEndian 1 5 3 [5])]).
Proof.
  apply (pass_through BigEndian idle_host sample_self
           (sample_host BigEndian 1 5 3 [5]) 1 sample_vars).
  - closed.
  - closed.
  - discriminate.
  - discriminate.
Defined.

Lemma delegation_witness :
  exists h1,
    hook_logic BigEndian sample_self (sample_host BigEndian 2 5 0 []) =
      Some (tt, h1, []) /\
    _start BigEndian idle_host sample_self (sample_host BigEndian 2 5 0 []) =
      Some (tt, h1, [HostCall gold_bolt_update_func sample_self h1]).
Proof.
  apply (delegation BigEndian idle_host sample_self
           (sample_host BigEndian 2 5 0 [])).
  apply gold_bolt_invocable with 2 sample_vars 5. in_place.
Defined.

Lemma moby_not_written_witness :
  exists h',
    hook_logic BigEndian sample_self (sample_host BigEndian 2 5 0 []) =
      Some (tt, h', []) /\
    forall k, 0 <= k < sizeof_Moby ->
      h' !! (sample_self + k) =
      sample_host BigEndian 2 5 0 [] !! (sample_self + k).
Proof.
  destruct (moby_not_written BigEndian sample_self
              (sample_host BigEndian 2 5 0 []) 2 sample_vars 5)
    as (h' & Hrun & Hframe & _).
  - in_place.
  - split; clear_of.
  - exists h'. split; [exact Hrun | exact Hframe].
Defined.

(** C8 fails for a bolt whose number leads to the moby itself: with the
    number 1052701, [collected_bolt[number]] is the [texture_mode] of the
    first moby, and the reset of the bolt takes it from 7 to 0. *)
Lemma moby_field_overwritten :
  let h := <[sample_self + Moby_texture_mode := 7]>
             (sample_host BigEndian 0 1052701 0 []) in
  load_byte h (sample_self + Moby_state) = Some 0 /\
  load_int BigEndian h sample_vars = Some 1052701 /\
  table_addr 1052701 = sample_self + Moby_texture_mode /\
  h !! (sample_self + Moby_texture_mode) = Some 7 /\
  hook_logic BigEndian sample_self h =
    Some (tt, <[table_addr 1052701 := 0]> h, []) /\
  <[table_addr 1052701 := 0]> h !! (sample_self + Moby_texture_mode) =
    Some 0.
Proof. cbv zeta. repeat split; first [reflexivity | closed]. Qed.

Lemma other_flags_kept_witness :
  exists h',
    hook_logic BigEndian sample_self (sample_host BigEndian 0 5 1 [6]) =
      Some (tt, h', []) /\
    collected_bolt h' 6 = Some 1.
Proof.
  destruct (other_flags_kept BigEndian sample_self
              (sample_host BigEndian 0 5 1 [6]) 0 sample_vars 5)
    as (h' & Hrun & Hf); [in_place |].
  exists h'. split; [exact Hrun |]. rewrite (Hf 6); [closed | lia | clear_of].
Defined.

(** C9 fails for a moby whose pVars pointer is the address of the counter:
    with 5 in the counter the bolt is bolt 5, and its collection sets the
    flag of bolt 6. *)
Lemma other_flag_set :
  let h := stray_host BigEndian 2 5 in
  load_byte h (sample_self + Moby_state) = Some 2 /\
  load_word BigEndian h (sample_self + Moby_pvars) = Some counter_addr /\
  load_int BigEndian h counter_addr = Some 5 /\
  collected_bolt h 6 = Some 0 /\
  exists h', hook_logic BigEndian sample_self h = Some (tt, h', []) /\
    collected_bolt h' 6 = Some 1.
Proof.
  cbv zeta.
  split; [closed |]. split; [closed |]. split; [closed |]. split; [closed |].
  exists (<[table_addr 6 := 1]>
            (write_word BigEndian (stray_host BigEndian 2 5) counter_addr 6)).
  split; [reflexivity | closed].
Qed.

Lemma hook_reads_own_flag_only_witness :
  exists h1' h2',
    hook_logic BigEndian sample_self (sample_host BigEndian 2 5 7 [6]) =
      Some (tt, h1', []) /\
    hook_logic BigEndian sample_self (sample_host BigEndian 2 5 7 []) =
      Some (tt, h2', []) /\
    n_gold_bolts_collected BigEndian h1' =
      n_gold_bolts_collected BigEndian h2' /\
    collected_bolt h1' 5 = collected_bolt h2' 5.
Proof.
  apply (hook_reads_own_flag_only BigEndian sample_self sample_self
           (sample_host BigEndian 2 5 7 [6]) (sample_host BigEndian 2 5 7 [])
           2 sample_vars sample_vars 5).
  - in_place.
  - in_place.
  - closed.
  - closed.
Defined.

(** The 64 flags of a closed memory are all 0. *)
Lemma table_all_zero (h : Host) :
  forallb (fun j => bool_decide (collected_bolt h j = Some 0)) (seqZ 0 64)
    = true ->
  forall j, in_table 64 j -> collected_bolt h j = Some 0.
Proof.
  intros Hall j Hj. rewrite forallb_forall in Hall.
  assert (Hin : In j (seqZ 0 64)).
  { apply list_elem_of_In, elem_of_seqZ. unfold in_table in Hj. lia. }
  apply Hall in Hin. by apply bool_decide_eq_true in Hin.
Qed.

(** One more invocation for the first bolt at the head of a sequence. *)
Ltac sample_tick :=
  eapply (run_sample_tick BigEndian 64);
  [ lia
  | in_place
  | in_table64
  | first
      [ eapply hook_logic_reset; in_place
      | eapply hook_logic_collect; [in_place | closed | reflexivity]
      | eapply hook_logic_counted; [in_place | reflexivity | discriminate]
      | eapply hook_logic_other;
        [closed | closed | discriminate | discriminate] ]
  | ].

(** The scenario of the specification: bolt 5 is collected, seen again in
    state 2, reset and collected again. *)
Lemma flag_tracks_last_transition_witness :
  exists h',
    run BigEndian 64 [(2, 5); (2, 5); (0, 5); (2, 5)]
        (sample_host BigEndian 0 5 0 []) h' /\
    n_gold_bolts_collected BigEndian h' = Some 2 /\
    collected_bolt h' 5 = Some 1 /\
    (collected_bolt h' 5 = Some 1 <->
     collected_since_reset 5 [(2, 5); (2, 5); (0, 5); (2, 5)]).
Proof.
  eexists. split; [do 4 sample_tick; apply run_nil |].
  split; [closed |]. split; [closed |].
  refine (proj2 (proj1 (flag_tracks_last_transition BigEndian 64) 5 _
                       (sample_host BigEndian 0 5 0 []) _ _ _ _)).
  - do 4 sample_tick. apply run_nil.
  - apply table_all_zero. closed.
  - in_table64.
Defined.

(** C7 fails for a bolt whose flag is a byte of the counter.  From a
    counter and a table at 0, bolt -1 is collected and then bolt 5: the
    flag of bolt -1 is the low byte of the counter and ends at 2, not at 1.
    With the bytes in the other order this is bolt -4. *)
Lemma flag_at_counter_byte :
  (let h := with_bolt BigEndian second_self second_vars 2 5
              (sample_host BigEndian 2 (-1) 0 []) in
   let h1 := <[table_addr (-1) := 1]>
               (write_word BigEndian h counter_addr 1) in
   let h2 := <[table_addr 5 := 1]>
               (write_word BigEndian h1 counter_addr 2) in
   load_int BigEndian h sample_vars = Some (-1) /\
   load_int BigEndian h second_vars = Some 5 /\
   collected_bolt h (-1) = Some 0 /\
   collected_bolt h 5 = Some 0 /\
   hook_logic BigEndian sample_self h = Some (tt, h1, []) /\
   hook_logic BigEndian second_self h1 = Some (tt, h2, []) /\
   collected_bolt h2 (-1) = Some 2) /\
  (let h := with_bolt LittleEndian second_self second_vars 2 5
              (sample_host LittleEndian 2 (-4) 0 []) in
   let h1 := <[table_addr (-4) := 1]>
               (write_word LittleEndian h counter_addr 1) in
   let h2 := <[table_addr 5 := 1]>
               (write_word LittleEndian h1 counter_addr 2) in
   load_int LittleEndian h sample_vars = Some (-4) /\
   load_int LittleEndian h second_vars = Some 5 /\
   collected_bolt h (-4) = Some 0 /\
   collected_bolt h 5 = Some 0 /\
   hook_logic LittleEndian sample_self h = Some (tt, h1, []) /\
   hook_logic LittleEndian second_self h1 = Some (tt, h2, []) /\
   collected_bolt h2 (-4) = Some 2).
Proof.
  cbv zeta. split.
  - split; [closed |]. split; [closed |]. split; [closed |].
    split; [closed |]. split; [reflexivity |]. split; [reflexivity | closed].
  - split; [closed |]. split; [closed |]. split; [closed |].
    split; [closed |]. split; [reflexivity |]. split; [reflexivity | closed].
Qed.

Lemma repeated_collect_counts_once_witness :
  exists h1 h3,
    run BigEndian 64 [(2, 5)] (sample_host BigEndian 0 5 0 []) h1 /\
    run BigEndian 64 [(2, 5); (2, 5); (2, 5)]
        (sample_host BigEndian 0 5 0 []) h3 /\
    n_gold_bolts_collected BigEndian h1 = Some 1 /\
    n_gold_bolts_collected BigEndian h3 =
      n_gold_bolts_collected BigEndian h1.
Proof.
  eexists. eexists.
  split; [sample_tick; apply run_nil |].
  split; [do 3 sample_tick; apply run_nil |].
  split; [closed |].
  refine (proj1 (repeated_collect_counts_once BigEndian 64 5 3
                   (sample_host BigEndian 0 5 0 []) _ _ _ _ _)).
  - lia.
  - sample_tick. apply run_nil.
  - do 3 sample_tick. apply run_nil.
Defined.

(** C2 fails in three places.  When the bolt is already counted, its flag
    at 1, two invocations with state 2 leave the counter at 0, not at 1.
    At the top of the [int] range they take the counter from 2147483647 to
    -2147483648.  For a bolt numbered -2, whose flag is a byte of the
    counter, they take the counter from 0 to 257. *)
Lemma repeated_collect_of_counted_bolt :
  (let h := sample_host BigEndian 2 5 0 [5] in
   collected_bolt h 5 = Some 1 /\
   n_gold_bolts_collected BigEndian h = Some 0 /\
   (exists h', run BigEndian 64 [(2, 5); (2, 5)] h h') /\
   forall h', run BigEndian 64 [(2, 5); (2, 5)] h h' ->
     n_gold_bolts_collected BigEndian h' = Some 0) /\
  (let h := sample_host BigEndian 2 5 2147483647 [] in
   collected_bolt h 5 = Some 0 /\
   n_gold_bolts_collected BigEndian h = Some 2147483647 /\
   (exists h', run BigEndian 64 [(2, 5); (2, 5)] h h') /\
   forall h', run BigEndian 64 [(2, 5); (2, 5)] h h' ->
     n_gold_bolts_collected BigEndian h' = Some (-2147483648)) /\
  (let h := sample_host BigEndian 2 (-2) 0 [] in
   let h1 := <[table_addr (-2) := 1]>
               (write_word BigEndian h counter_addr 1) in
   load_int BigEndian h sample_vars = Some (-2) /\
   collected_bolt h (-2) = Some 0 /\
   n_gold_bolts_collected BigEndian h = Some 0 /\
   hook_logic BigEndian sample_self h = Some (tt, h1, []) /\
   hook_logic BigEndian sample_self h1 = Some (tt, h1, []) /\
   n_gold_bolts_collected BigEndian h1 = Some 257).
Proof.
  cbv zeta. split; [| split].
  - split; [closed |]. split; [closed |]. split.
    + eexists. do 2 sample_tick. apply run_nil.
    + intros h' Hrun.
      destruct (run_repeat_collect BigEndian 64 5 1 _ h' Hrun)
        as (n & c & _ & Hn & Hc & Hn' & _).
      assert (n = 0) as -> by (vm_compute in Hn; congruence).
      assert (c = 1) as -> by (vm_compute in Hc; congruence).
      exact Hn'.
  - split; [closed |]. split; [closed |]. split.
    + eexists. do 2 sample_tick. apply run_nil.
    + intros h' Hrun.
      destruct (run_repeat_collect BigEndian 64 5 1 _ h' Hrun)
        as (n & c & _ & Hn & Hc & Hn' & _).
      assert (n = 2147483647) as -> by (vm_compute in Hn; congruence).
      assert (c = 0) as -> by (vm_compute in Hc; congruence).
      exact Hn'.
  - split; [closed |]. split; [closed |]. split; [closed |].
    split; [reflexivity |]. split; [reflexivity | closed].
Qed.

Lemma reset_reenables_counting_witness :
  exists h',
    run BigEndian 64 [(0, 5); (2, 5)] (sample_host BigEndian 2 5 1 [5]) h' /\
    n_gold_bolts_collected BigEndian h' = Some 2 /\
    collected_bolt h' 5 = Some 1.
Proof.
  assert (Hrun : exists h',
             run BigEndian 64 [(0, 5); (2, 5)]
                 (sample_host BigEndian 2 5 1 [5]) h').
  { eexists. do 2 sample_tick. apply run_nil. }
  destruct Hrun as [h' Hrun]. exists h'. split; [exact Hrun |].
  destruct (reset_reenables_counting BigEndian 64 5
              (sample_host BigEndian 2 5 1 [5]) h')
    as (n & Hn & _ & Hn' & Hf & _); [closed | exact Hrun |].
  assert (n = 1) as -> by (vm_compute in Hn; congruence).
  split; [| exact Hf]. apply Hn'. unfold int_max. lia.
Defined.

(** C3 fails in two places.  At the top of the [int] range the reset and
    the new collection take the counter from 2147483647 to -2147483648.
    For bolt -1, whose flag is the low byte of the counter, they take a
    counter at 1 (so the flag is 1) to 0 and back to 1, not to 2; with the
    bytes in the other order this is bolt -4. *)
Lemma reset_then_collect_at_int_max :
  (let h := sample_host BigEndian 2 5 2147483647 [5] in
   collected_bolt h 5 = Some 1 /\
   n_gold_bolts_collected BigEndian h = Some 2147483647 /\
   (exists h', run BigEndian 64 [(0, 5); (2, 5)] h h') /\
   forall h', run BigEndian 64 [(0, 5); (2, 5)] h h' ->
     n_gold_bolts_collected BigEndian h' = Some (-2147483648)) /\
  (let h := sample_host BigEndian 0 (-1) 1 [] in
   let h1 := <[table_addr (-1) := 0]> h in
   let h2 := <[table_addr (-1) := 1]>
               (write_word BigEndian (move_sample_bolt 2 h1)
                           counter_addr 1) in
   collected_bolt h (-1) = Some 1 /\
   n_gold_bolts_collected BigEndian h = Some 1 /\
   hook_logic BigEndian sample_self h = Some (tt, h1, []) /\
   hook_logic BigEndian sample_self (move_sample_bolt 2 h1)
     = Some (tt, h2, []) /\
   n_gold_bolts_collected BigEndian h2 = Some 1) /\
  (let h := sample_host LittleEndian 0 (-4) 1 [] in
   let h1 := <[table_addr (-4) := 0]> h in
   let h2 := <[table_addr (-4) := 1]>
               (write_word LittleEndian (move_sample_bolt 2 h1)
                           counter_addr 1) in
   collected_bolt h (-4) = Some 1 /\
   n_gold_bolts_collected LittleEndian h = Some 1 /\
   hook_logic LittleEndian sample_self h = Some (tt, h1, []) /\
   hook_logic LittleEndian sample_self (move_sample_bolt 2 h1)
     = Some (tt, h2, []) /\
   n_gold_bolts_collected LittleEndian h2 = Some 1).
Proof.
  cbv zeta. split; [| split].
  - split; [closed |]. split; [closed |]. split.
    + eexists. do 2 sample_tick. apply run_nil.
    + intros h' Hrun.
      destruct (run_reset_collect BigEndian 64 5 _ h' Hrun)
        as (n & Hn & Hn' & _).
      assert (n = 2147483647) as -> by (vm_compute in Hn; congruence).
      exact Hn'.
  - split; [closed |]. split; [closed |]. split; [reflexivity |].
    split; [reflexivity | closed].
  - split; [closed |]. split; [closed |]. split; [reflexivity |].
    split; [reflexivity | closed].
Qed.

Lemma counter_never_taken_back_witness :
  (exists h',
     hook_logic BigEndian sample_self (sample_host BigEndian 0 5 3 [5])
       = Some (tt, h', []) /\
     (n_gold_bolts_collected BigEndian h' = Some 3 \/
      n_gold_bolts_collected BigEndian h' = Some (3 + 1))) /\
  (exists h' n',
     run BigEndian 64 [(2, 5); (2, 5); (0, 5); (2, 5)]
         (sample_host BigEndian 0 5 0 []) h' /\
     n_gold_bolts_collected BigEndian h' = Some n' /\ 0 <= n' <= 4).
Proof.
  split.
  - destruct (proj1 (counter_never_taken_back BigEndian 64) sample_self
                (sample_host BigEndian 0 5 3 [5]) 0 sample_vars 5 3)
      as (h' & Hrun & _ & Hn); [in_place | closed |].
    exists h'. split; [exact Hrun |]. apply Hn. unfold int_max. lia.
  - assert (Hrun : exists h',
               run BigEndian 64 [(2, 5); (2, 5); (0, 5); (2, 5)]
                   (sample_host BigEndian 0 5 0 []) h').
    { eexists. do 4 sample_tick. apply run_nil. }
    destruct Hrun as [h' Hrun].
    destruct (proj2 (counter_never_taken_back BigEndian 64)
                [(2, 5); (2, 5); (0, 5); (2, 5)]
                (sample_host BigEndian 0 5 0 []) h' 0 Hrun)
      as (n' & Hn' & Hb); [closed | unfold int_max; simpl; lia |].
    exists h', n'. split; [exact Hrun |]. split; [exact Hn' |].
    simpl in Hb. lia.
Defined.

(** C10 fails in two places.  At the top of the [int] range one invocation
    for a bolt in state 2 whose flag is 0 takes the counter from 2147483647
    down to -2147483648.  For bolt -1, whose flag is a byte of the counter,
    a reset takes the counter from 16843009 down to 16843008 (to 65793 with
    the bytes in the other order). *)
Lemma counter_wraps_at_int_max :
  (let h := sample_host BigEndian 2 5 2147483647 [] in
   gold_bolt_at BigEndian h sample_self 2 sample_vars 5 /\
   n_gold_bolts_collected BigEndian h = Some 2147483647 /\
   exists h', hook_logic BigEndian sample_self h = Some (tt, h', []) /\
     n_gold_bolts_collected BigEndian h' = Some (-2147483648)) /\
  (let h := sample_host BigEndian 0 (-1) 16843009 [] in
   load_byte h (sample_self + Moby_state) = Some 0 /\
   n_gold_bolts_collected BigEndian h = Some 16843009 /\
   hook_logic BigEndian sample_self h =
     Some (tt, <[table_addr (-1) := 0]> h, []) /\
   n_gold_bolts_collected BigEndian (<[table_addr (-1) := 0]> h) =
     Some 16843008) /\
  (let h := sample_host LittleEndian 0 (-1) 16843009 [] in
   load_byte h (sample_self + Moby_state) = Some 0 /\
   n_gold_bolts_collected LittleEndian h = Some 16843009 /\
   hook_logic LittleEndian sample_self h =
     Some (tt, <[table_addr (-1) := 0]> h, []) /\
   n_gold_bolts_collected LittleEndian (<[table_addr (-1) := 0]> h) =
     Some 65793).
Proof.
  cbv zeta. split; [| split].
  - split; [in_place |]. split; [closed |].
    eexists. split; [eapply hook_logic_collect; [in_place | closed | closed] |].
    closed.
  - split; [closed |]. split; [closed |]. split; [reflexivity | closed].
  - split; [closed |]. split; [closed |]. split; [reflexivity | closed].
Qed.

(** A null pVars pointer does no harm to a moby in state 1; a bolt in state
    0 whose number is past the mapped flags is a fault. *)
Example faults_and_no_fault :
  hook_logic BigEndian sample_self
    (<[sample_self + Moby_state := 1]> blank) =
    Some (tt, <[sample_self + Moby_state := 1]> blank, []) /\
  load_word BigEndian (<[sample_self + Moby_state := 1]> blank)
    (sample_self + Moby_pvars) = Some 0 /\
  load_int BigEndian (<[sample_self + Moby_state := 1]> blank) 0 = None /\
  hook_logic BigEndian sample_self (sample_host BigEndian 0 70 0 []) = None.
Proof. repeat split; first [reflexivity | closed]. Qed.

(** One invocation for the bolt at [self], in a memory that has it in the
    state and with the number of the head of the sequence. *)
Ltac bolt_tick self vars :=
  eapply (run_cons BigEndian 64 self _ vars);
  [ apply same_globals_refl
  | in_place
  | in_table64
  | first
      [ eapply hook_logic_reset; in_place
      | eapply hook_logic_collect; [in_place | closed | reflexivity]
      | eapply hook_logic_counted; [in_place | reflexivity | discriminate] ]
  | ].

Lemma different_bolts_commute_witness :
  exists ha hb,
    run BigEndian 64 [(2, 5); (0, 6)]
        (with_bolt BigEndian second_self second_vars 0 6
           (sample_host BigEndian 2 5 0 [6])) ha /\
    run BigEndian 64 [(0, 6); (2, 5)]
        (with_bolt BigEndian second_self second_vars 0 6
           (sample_host BigEndian 2 5 0 [6])) hb /\
    same_globals BigEndian 64 ha hb.
Proof.
  assert (Ha : exists ha,
             run BigEndian 64 [(2, 5); (0, 6)]
                 (with_bolt BigEndian second_self second_vars 0 6
                    (sample_host BigEndian 2 5 0 [6])) ha).
  { eexists. bolt_tick sample_self sample_vars.
    bolt_tick second_self second_vars. apply run_nil. }
  assert (Hb : exists hb,
             run BigEndian 64 [(0, 6); (2, 5)]
                 (with_bolt BigEndian second_self second_vars 0 6
                    (sample_host BigEndian 2 5 0 [6])) hb).
  { eexists. bolt_tick second_self second_vars.
    bolt_tick sample_self sample_vars. apply run_nil. }
  destruct Ha as [ha Ha]. destruct Hb as [hb Hb].
  exists ha, hb. split; [exact Ha |]. split; [exact Hb |].
  eapply (different_bolts_commute BigEndian 64 2 0 5 6);
    [lia | exact Ha | exact Hb].
Defined.

Lemma repeated_reset_witness :
  exists h',
    run BigEndian 64 [(0, 5); (0, 5); (0, 5)]
        (sample_host BigEndian 2 5 4 [5]) h' /\
    n_gold_bolts_collected BigEndian h' = Some 4 /\
    collected_bolt h' 5 = Some 0.
Proof.
  assert (Hrun : exists h',
             run BigEndian 64 [(0, 5); (0, 5); (0, 5)]
                 (sample_host BigEndian 2 5 4 [5]) h').
  { eexists. do 3 sample_tick. apply run_nil. }
  destruct Hrun as [h' Hrun]. exists h'. split; [exact Hrun |].
  destruct (repeated_reset BigEndian 64 5 2 _ h' Hrun) as [Hn Hf].
  split; [rewrite Hn; closed |]. rewrite (Hf 5); [reflexivity | in_table64].
Defined.

Lemma counter_moves_iff_fresh_collect_witness :
  exists h1 h2 n,
    run BigEndian 64 [(2, 5); (0, 5)] (sample_host BigEndian 0 5 0 []) h1 /\
    run BigEndian 64 [(2, 5)] h1 h2 /\
    n_gold_bolts_collected BigEndian h1 = Some n /\
    n_gold_bolts_collected BigEndian h2 = Some (wrap_int (n + 1)).
Proof.
  assert (H1 : exists h1,
             run BigEndian 64 [(2, 5); (0, 5)]
                 (sample_host BigEndian 0 5 0 []) h1 /\
             exists h2, run BigEndian 64 [(2, 5)] h1 h2).
  { eexists. split; [do 2 sample_tick; apply run_nil |].
    eexists. sample_tick. apply run_nil. }
  destruct H1 as (h1 & Hrun1 & h2 & Hrun2).
  destruct (counter_moves_iff_fresh_collect BigEndian 64 2 5
              [(2, 5); (0, 5)] (sample_host BigEndian 0 5 0 []) h1 h2)
    as (n & Hn & Hmove & _).
  - apply table_all_zero. closed.
  - exact Hrun1.
  - exact Hrun2.
  - exists h1, h2, n. split; [exact Hrun1 |]. split; [exact Hrun2 |].
    split; [exact Hn |]. apply Hmove. split; [reflexivity |].
    rewrite !collected_since_reset_cons.
    intros [[Hnil | (He & _)] | (_ & _ & H0)].
    + by apply collected_since_reset_nil in Hnil.
    + discriminate He.
    + apply H0. by left.
Defined.

Lemma counter_counts_different_bolts_witness :
  exists h',
    run BigEndian 64 [(2, 5); (1, 5); (2, 5); (2, 5)]
        (sample_host BigEndian 0 5 0 []) h' /\
    n_gold_bolts_collected BigEndian h' = Some 1 /\
    collected_bolt h' 5 = Some 1.
Proof.
  assert (Hrun : exists h',
             run BigEndian 64 [(2, 5); (1, 5); (2, 5); (2, 5)]
                 (sample_host BigEndian 0 5 0 []) h').
  { eexists. do 4 sample_tick. apply run_nil. }
  destruct Hrun as [h' Hrun]. exists h'. split; [exact Hrun |].
  destruct (counter_counts_different_bolts BigEndian 64
              [(2, 5); (1, 5); (2, 5); (2, 5)]
              (sample_host BigEndian 0 5 0 []) h' 0) as [Hn Hf].
  - apply table_all_zero. closed.
  - closed.
  - intros st i Hin. rewrite !elem_of_cons, elem_of_nil in Hin.
    destruct Hin as [He | [He | [He | [He | []]]]]; injection He as -> _; lia.
  - exact Hrun.
  - split; [rewrite Hn; closed |].
    rewrite (Hf 5); [closed | in_table64].
Defined.

Lemma starts_is_run_witness :
  exists h' h'',
    starts BigEndian 64 pickup_host [(0, 5); (2, 5); (2, 5)]
           (sample_host BigEndian 0 5 1 [5]) h' /\
    n_gold_bolts_collected BigEndian h' = Some 2 /\
    run BigEndian 64 [(0, 5); (2, 5); (2, 5)]
        (sample_host BigEndian 0 5 1 [5]) h'' /\
    same_globals BigEndian 64 h'' h'.
Proof.
  assert (Hstarts : exists h',
             starts BigEndian 64 pickup_host [(0, 5); (2, 5); (2, 5)]
                    (sample_host BigEndian 0 5 1 [5]) h' /\
             n_gold_bolts_collected BigEndian h' = Some 2).
  { eexists. split.
    - eapply (starts_cons BigEndian 64 pickup_host sample_self _ sample_vars);
        [in_place | in_table64
        | eapply start_after_logic; eapply hook_logic_reset; in_place |].
      eapply (starts_cons BigEndian 64 pickup_host sample_self _ sample_vars);
        [in_place | in_table64
        | eapply start_after_logic; eapply hook_logic_collect;
          [in_place | closed | reflexivity] |].
      eapply (starts_cons BigEndian 64 pickup_host sample_self _ sample_vars);
        [in_place | in_table64
        | eapply start_after_logic; eapply hook_logic_counted;
          [in_place | reflexivity | discriminate] |].
      apply starts_nil.
    - closed. }
  destruct Hstarts as (h' & Hstarts & Hn).
  destruct (starts_is_run BigEndian 64 pickup_host
              [(0, 5); (2, 5); (2, 5)] (sample_host BigEndian 0 5 1 [5]) h')
    as (h'' & Hrun & Hsame).
  - apply pickup_host_keeps_globals. lia.
  - exact Hstarts.
  - exists h', h''. split; [exact Hstarts |]. split; [exact Hn |].
    split; [exact Hrun | exact Hsame].
Defined.
